(** * gox: the platform registry and the version resolver of [platform.go]

    A shallow embedding of [src/platform.go] of the gox cross-compilation
    tool: the [Platform] value with its three methods, the package level
    snapshots [Platforms_1_0] ... [Platforms_1_12] as they come out of the
    package initialisation, and [SupportedPlatforms].

    The file calls into three things that are not part of the package:
    - Go's built-ins on slices, maps and strings ([append], map indexing,
      [strings.HasPrefix], slicing a string), modelled in [Module Go];
    - the allocation policy of the Go runtime behind [append]
      ([runtime.growslice]), which the language leaves open and which the
      development therefore takes as a parameter [growcap], with the policy
      of the gc toolchain as one instance ([gc_growcap]);
    - the library [github.com/hashicorp/go-version] imported at line 8,
      modelled in [Module version]. *)

From Stdlib Require Import String Ascii List ZArith NArith Bool Arith Lia.
From Stdlib Require Import DecimalString DecimalZ DecimalPos.
Import ListNotations.

Local Open Scope string_scope.
Local Open Scope list_scope.
Local Open Scope nat_scope.

(* ================================================================== *)
(** * Go built-ins and runtime                                          *)
(* ================================================================== *)

Module Go.

(** ** Results of fallible calls: Go's [(value, error)] pairs *)

Inductive result (E A : Type) : Type :=
| Ok (a : A)
| Err (e : E).
Arguments Ok {E A} a.
Arguments Err {E A} e.

(** ** Strings *)

(** [strings.HasPrefix(s, prefix)]: [s] is at least as long as [prefix]
    and starts with its bytes. *)
Fixpoint strings_HasPrefix (s prefix : string) {struct prefix} : bool :=
  match prefix with
  | EmptyString => true
  | String a prefix' =>
      match s with
      | EmptyString => false
      | String b s' => Ascii.eqb b a && strings_HasPrefix s' prefix'
      end
  end.

(** The slice expression [s[n:]] on a string of at least [n] bytes. *)
Fixpoint string_from (n : nat) (s : string) : string :=
  match n, s with
  | O, _ => s
  | S n', String _ s' => string_from n' s'
  | S _, EmptyString => EmptyString
  end.

(** [strings.Split(s, sep)] for a one byte separator: the pieces between
    the separators, in order; a string without separator is one piece. *)
Fixpoint split_go (sep : ascii) (s : string) (cur : string) : list string :=
  match s with
  | EmptyString => [cur]
  | String c s' =>
      if Ascii.eqb c sep
      then cur :: split_go sep s' EmptyString
      else split_go sep s' (cur ++ String c EmptyString)%string
  end.

Definition strings_Split (s : string) (sep : ascii) : list string :=
  split_go sep s EmptyString.

(** ** strconv *)

Definition is_digit (c : ascii) : bool :=
  let n := nat_of_ascii c in (48 <=? n) && (n <=? 57).

Definition digit_value (c : ascii) : Z := Z.of_nat (nat_of_ascii c) - 48.

(** [*strconv.NumError]: the two ways a conversion fails. *)
Inductive NumError : Type := ErrSyntax | ErrRange.

(** The loop of [strconv.ParseUint(s, 10, 64)] over the bytes of [s], [n]
    the value read so far: a byte that is not a decimal digit is a syntax
    error; a value past [1<<64 - 1] is a range error, reported as soon as
    it is reached, with that maximum as the value. *)
Fixpoint parse_uint (s : string) (n : Z) : Z * option NumError :=
  match s with
  | EmptyString => (n, None)
  | String c s' =>
      if is_digit c then
        if ((2 ^ 64 - 1) / 10 + 1 <=? n)%Z then ((2 ^ 64 - 1)%Z, Some ErrRange)
        else
          let n1 := (10 * n + digit_value c)%Z in
          if (2 ^ 64 - 1 <? n1)%Z then ((2 ^ 64 - 1)%Z, Some ErrRange)
          else parse_uint s' n1
      else (0%Z, Some ErrSyntax)
  end.

Definition strconv_ParseUint (s : string) : Z * option NumError :=
  match s with
  | EmptyString => (0%Z, Some ErrSyntax)
  | String _ _ => parse_uint s 0%Z
  end.

(** [strconv.ParseInt(s, 10, 64)]: the value and the error, as Go returns
    them.  An optional sign, then an unsigned number; out of the range of
    [int64] the value is the nearest bound and the error a range error. *)
Definition strconv_ParseInt (s : string) : Z * option NumError :=
  match s with
  | EmptyString => (0%Z, Some ErrSyntax)
  | String c s' =>
      let neg := Ascii.eqb c "-" in
      let body := if Ascii.eqb c "+" || neg then s' else s in
      match strconv_ParseUint body with
      | (_, Some ErrSyntax) => (0%Z, Some ErrSyntax)
      | (un, _) =>
          if negb neg && (2 ^ 63 <=? un)%Z
          then ((2 ^ 63 - 1)%Z, Some ErrRange)
          else if neg && (2 ^ 63 <? un)%Z
          then ((- 2 ^ 63)%Z, Some ErrRange)
          else ((if neg then - un else un)%Z, None)
      end
  end.

(** [strconv.FormatInt(i, 10)]. *)
Definition strconv_FormatInt (i : Z) : string :=
  NilZero.string_of_int (Z.to_int i).

(** ** Map literals indexed once

    [map[string]string{ k1: v1, ... }[k]]: the value stored under [k], the
    zero value (the empty string) when [k] is not a key.  A map literal has
    no repeated key, so the association list is read front to back. *)

Definition map_literal : Type := list (string * string).

Fixpoint map_index (m : map_literal) (k : string) : string :=
  match m with
  | [] => EmptyString
  | (k', v) :: m' => if String.eqb k' k then v else map_index m' k
  end.

(** ** Slices

    A slice value is a header: the backing array it points into, its
    length and its capacity (every slice of this program starts at index 0
    of its array).  Backing arrays live in a heap, named by allocation
    order; an array of capacity [c] is a list of [c] cells. *)

Record Slice : Type := mkSlice { array : nat; len : nat; cap : nat }.

Section Slices.
Context {T : Type}.
Variable zero : T.                       (* the zero value of [T] *)
Variable growcap : nat -> nat -> nat.    (* old capacity, needed length *)

Definition Heap : Type := list (list T).

(** Heap-passing computations: package initialisation runs the
    initialisers one after the other on one heap. *)
Definition M (A : Type) : Type := Heap -> A * Heap.
Definition ret {A} (a : A) : M A := fun h => (a, h).
Definition bind {A B} (c : M A) (k : A -> M B) : M B :=
  fun h => let (a, h') := c h in k a h'.
Definition heap : M Heap := fun h => (h, h).

Definition load (h : Heap) (a : nat) : list T := nth a h [].

Definition store (h : Heap) (a : nat) (cells : list T) : Heap :=
  firstn a h ++ cells :: skipn (S a) h.

(** The elements a slice denotes: the first [len] cells of its array. *)
Definition view (h : Heap) (s : Slice) : list T :=
  firstn (len s) (load h (array s)).

(** Overwrite the cells [i], [i+1], ... of an array with [xs]. *)
Definition write (cells : list T) (i : nat) (xs : list T) : list T :=
  firstn i cells ++ xs ++ skipn (i + List.length xs) cells.

(** A composite literal [[]T{x1, ..., xn}]: a fresh array of exactly
    [n] cells. *)
Definition slice_lit (xs : list T) : M Slice :=
  fun h => (mkSlice (List.length h) (List.length xs) (List.length xs),
            h ++ [xs]).

(** [append(s, xs...)], as the language specification states it: when
    the capacity of [s] is large enough the values are written into the
    array of [s], past its length, and the result shares that array;
    otherwise a new, sufficiently large array receives the elements of
    [s] followed by the values.  How large is the runtime's choice
    ([growcap]); it is never smaller than what is needed. *)
Definition append (s : Slice) (xs : list T) : M Slice :=
  fun h =>
    let n := len s + List.length xs in
    if n <=? cap s then
      (mkSlice (array s) n (cap s),
       store h (array s) (write (load h (array s)) (len s) xs))
    else
      let c := Nat.max n (growcap (cap s) n) in
      (mkSlice (List.length h) n c,
       h ++ [view h s ++ xs ++ repeat zero (c - n)]).
End Slices.

(** ** The gc toolchain's growth policy ([runtime.growslice])

    [nextslicecap]: the needed length when it exceeds twice the old
    capacity, twice the old capacity below the threshold of 256 elements,
    and from there on growth by (cap + 3*256)/4 until the length fits.
    The byte size of the new array is then rounded up to a size class of
    the allocator ([roundupsize], over the table [class_to_size] of
    [runtime/sizeclasses.go]; whole pages above the largest class) and the
    capacity is what fits in it.  The slices of this program stay below 256
    elements, where every release of the runtime doubles. *)

Definition class_to_size : list N :=
  [8; 16; 24; 32; 48; 64; 80; 96; 112; 128; 144; 160; 176; 192; 208; 224;
   240; 256; 288; 320; 352; 384; 416; 448; 480; 512; 576; 640; 704; 768;
   896; 1024; 1152; 1280; 1408; 1536; 1792; 2048; 2304; 2688; 3072; 3200;
   3456; 4096; 4864; 5120; 5376; 6144; 6528; 6784; 6912; 8192; 9472; 9728;
   10240; 10880; 12288; 13568; 14336; 16384; 18432; 19072; 20480; 21760;
   24576; 27264; 28672; 32768]%N.

Definition pageSize : N := 8192%N.

Definition roundupsize (size : N) : N :=
  match find (fun c => (size <=? c)%N) class_to_size with
  | Some c => c
  | None => ((size + pageSize - 1) / pageSize * pageSize)%N
  end.

Fixpoint grow_loop (fuel : nat) (newcap newLen : N) : N :=
  match fuel with
  | O => newLen
  | S fuel' =>
      let newcap := (newcap + (newcap + 3 * 256) / 4)%N in
      if (newLen <=? newcap)%N then newcap else grow_loop fuel' newcap newLen
  end.

Definition nextslicecap (newLen oldCap : N) : N :=
  let doublecap := (oldCap + oldCap)%N in
  if (doublecap <? newLen)%N then newLen
  else if (oldCap <? 256)%N then doublecap
  else grow_loop (N.to_nat newLen) oldCap newLen.

Definition growslice_cap (elemsize : N) (oldCap newLen : nat) : nat :=
  let newcap := nextslicecap (N.of_nat newLen) (N.of_nat oldCap) in
  N.to_nat (roundupsize (newcap * elemsize) / elemsize).

End Go.

Notation "x <- c ;; k" := (Go.bind c (fun x => k))
  (at level 61, c at next level, right associativity).

(* ================================================================== *)
(** * platform.go: the Platform value                                   *)
(* ================================================================== *)

(** [type Platform struct { OS string; Arch string; Default bool }] *)
Record Platform : Type := mkPlatform {
  OS : string;
  Arch : string;
  Default : bool
}.

(** The zero value [Platform{}], what an unwritten array cell holds. *)
Definition Platform_zero : Platform := mkPlatform "" "" false.

(** [unsafe.Sizeof(Platform{})] on a 64-bit target: two string headers of
    16 bytes and a bool padded to the alignment of 8; on a 32-bit target:
    two headers of 8 bytes and a bool padded to 4. *)
Definition Platform_size : N := 40%N.
Definition Platform_size32 : N := 20%N.

(** [func (p *Platform) String() string]: [fmt.Sprintf("%s/%s", p.OS, p.Arch)]. *)
Definition Platform_String (p : Platform) : string :=
  (OS p ++ "/" ++ Arch p)%string.

(** [func (p *Platform) OSUname() string] (lines 30-45). *)
Definition OSUname_table : Go.map_literal :=
  [ ("darwin", "Darwin");
    ("dragonfly", "DragonFly");
    ("freebsd", "FreeBSD");
    ("linux", "Linux");
    ("netbsd", "NetBSD");
    ("openbsd", "OpenBSD");
    ("plan9", "Plan9");
    ("solaris", "SunOS");
    ("windows", "Windows") ].

Definition Platform_OSUname (p : Platform) : string :=
  Go.map_index OSUname_table (OS p).

(** [func (p *Platform) ArchUname() string] (lines 49-71). *)
Definition ArchUname_table : Go.map_literal :=
  [ ("386", "i386");
    ("amd64", "x86_64");
    ("arm", "arm");
    ("arm64", "aarch64");
    ("ppc64", "ppc64");
    ("ppc64le", "ppc64le") ].

Definition Platform_ArchUname (p : Platform) : string :=
  Go.map_index ArchUname_table (Arch p).

(* ================================================================== *)
(** * platform.go: the snapshots (lines 73-171)                         *)
(* ================================================================== *)

(** The package level variables after initialisation: thirteen slice
    headers and the heap their arrays live in. *)
Record Globals : Type := mkGlobals {
  Platforms_1_0 : Go.Slice;
  Platforms_1_1 : Go.Slice;
  Platforms_1_3 : Go.Slice;
  Platforms_1_4 : Go.Slice;
  Platforms_1_5 : Go.Slice;
  Platforms_1_6 : Go.Slice;
  Platforms_1_7 : Go.Slice;
  Platforms_1_8 : Go.Slice;
  Platforms_1_9 : Go.Slice;
  Platforms_1_10 : Go.Slice;
  Platforms_1_11 : Go.Slice;
  Platforms_1_12 : Go.Slice;
  PlatformsLatest : Go.Slice;
  mem : Go.Heap (T := Platform)
}.

(** What a slice of the package denotes. *)
Definition contents (g : Globals) (s : Go.Slice) : list Platform :=
  Go.view (mem g) s.

(** The composite literals of the [var] block, in source order. *)
Definition lit_1_0 : list Platform :=
  [ mkPlatform "darwin" "386" true;
    mkPlatform "darwin" "amd64" true;
    mkPlatform "linux" "386" true;
    mkPlatform "linux" "amd64" true;
    mkPlatform "linux" "arm" true;
    mkPlatform "freebsd" "386" true;
    mkPlatform "freebsd" "amd64" true;
    mkPlatform "openbsd" "386" true;
    mkPlatform "openbsd" "amd64" true;
    mkPlatform "windows" "386" true;
    mkPlatform "windows" "amd64" true ].

Definition add_1_1 : list Platform :=
  [ mkPlatform "freebsd" "arm" true;
    mkPlatform "netbsd" "386" true;
    mkPlatform "netbsd" "amd64" true;
    mkPlatform "netbsd" "arm" true;
    mkPlatform "plan9" "386" false ].

Definition add_1_3 : list Platform :=
  [ mkPlatform "dragonfly" "386" false;
    mkPlatform "dragonfly" "amd64" false;
    mkPlatform "nacl" "amd64" false;
    mkPlatform "nacl" "amd64p32" false;
    mkPlatform "nacl" "arm" false;
    mkPlatform "solaris" "amd64" false ].

Definition add_1_4 : list Platform :=
  [ mkPlatform "android" "arm" false;
    mkPlatform "plan9" "amd64" false ].

Definition add_1_5 : list Platform :=
  [ mkPlatform "darwin" "arm" false;
    mkPlatform "darwin" "arm64" false;
    mkPlatform "linux" "arm64" false;
    mkPlatform "linux" "ppc64" false;
    mkPlatform "linux" "ppc64le" false ].

Definition add_1_6 : list Platform :=
  [ mkPlatform "android" "386" false;
    mkPlatform "linux" "mips64" false;
    mkPlatform "linux" "mips64le" false ].

Definition add_1_7 : list Platform :=
  [ mkPlatform "linux" "s390x" true;
    mkPlatform "plan9" "arm" false;
    mkPlatform "android" "386" false;
    mkPlatform "linux" "mips64" true;
    mkPlatform "linux" "mips64le" true ].

Definition add_1_8 : list Platform :=
  [ mkPlatform "linux" "mips" true;
    mkPlatform "linux" "mipsle" true;
    mkPlatform "linux" "arm64" true ].

Definition add_1_9 : list Platform :=
  [ mkPlatform "linux" "riscv64" true;
    mkPlatform "freebsd" "riscv64" true;
    mkPlatform "freebsd" "arm64" true;
    mkPlatform "freebsd" "arm" true;
    mkPlatform "openbsd" "arm64" true;
    mkPlatform "openbsd" "arm" true;
    mkPlatform "openbsd" "riscv64" true;
    mkPlatform "windows" "arm" true;
    mkPlatform "windows" "arm64" true;
    mkPlatform "js" "wasm" true ].

Definition add_1_11 : list Platform :=
  [ mkPlatform "js" "wasm" true;
    mkPlatform "linux" "arm64" true ].

Definition add_1_12 : list Platform :=
  [ mkPlatform "linux" "ppc64" true;
    mkPlatform "windows" "arm" true;
    mkPlatform "aix" "ppc64" true ].

(** What each [var] initialiser reads as, ignoring that slices share
    arrays: the operand followed by the appended values. *)
Definition def_1_0 : list Platform := lit_1_0.
Definition def_1_1 : list Platform := def_1_0 ++ add_1_1.
Definition def_1_3 : list Platform := def_1_1 ++ add_1_3.
Definition def_1_4 : list Platform := def_1_3 ++ add_1_4.
Definition def_1_5 : list Platform := def_1_4 ++ add_1_5.
Definition def_1_6 : list Platform := def_1_5 ++ add_1_6.
Definition def_1_7 : list Platform := def_1_5 ++ add_1_7.
Definition def_1_8 : list Platform := def_1_7 ++ add_1_8.
Definition def_1_9 : list Platform := def_1_8 ++ add_1_9.
Definition def_1_10 : list Platform := def_1_9.
Definition def_1_11 : list Platform := def_1_10 ++ add_1_11.
Definition def_1_12 : list Platform := def_1_11 ++ add_1_12.

Section PackageInit.
Variable growcap : nat -> nat -> nat.

Let append := Go.append Platform_zero growcap.

(** The [var] block: every variable depends only on variables declared
    before it, so initialisation runs in declaration order.  The second
    operand of each [append] is a composite literal passed as the variadic
    argument; only its elements matter, so it is given as a list. *)
Definition initialize : Go.M Globals :=
  p_1_0 <- Go.slice_lit lit_1_0 ;;
  p_1_1 <- append p_1_0 add_1_1 ;;
  p_1_3 <- append p_1_1 add_1_3 ;;
  p_1_4 <- append p_1_3 add_1_4 ;;
  p_1_5 <- append p_1_4 add_1_5 ;;
  p_1_6 <- append p_1_5 add_1_6 ;;
  p_1_7 <- append p_1_5 add_1_7 ;;
  p_1_8 <- append p_1_7 add_1_8 ;;
  p_1_9 <- append p_1_8 add_1_9 ;;
  let p_1_10 := p_1_9 in
  p_1_11 <- append p_1_10 add_1_11 ;;
  p_1_12 <- append p_1_11 add_1_12 ;;
  let latest := p_1_12 in
  h <- Go.heap ;;
  Go.ret (mkGlobals p_1_0 p_1_1 p_1_3 p_1_4 p_1_5 p_1_6 p_1_7 p_1_8 p_1_9
                    p_1_10 p_1_11 p_1_12 latest h).

(** The package state once initialisation has run on the empty heap. *)
Definition init : Globals := fst (initialize []).
End PackageInit.

(** The package as the gc toolchain builds it, for a 64-bit target and
    for a 32-bit one. *)
Definition gc_growcap : nat -> nat -> nat := Go.growslice_cap Platform_size.
Definition gc : Globals := init gc_growcap.
Definition gc32 : Globals := init (Go.growslice_cap Platform_size32).

(* ================================================================== *)
(** * github.com/hashicorp/go-version                                   *)
(* ================================================================== *)

(** The part of the library [SupportedPlatforms] reaches: [NewVersion]
    ([version.go]), [NewConstraint] and [Constraints.Check]
    ([constraint.go]), with what they call. *)
Module version.
Import Go.

(** ** Errors *)

Inductive error : Type :=
| MalformedVersion (v : string)
| ErrorParsingVersion (segment : string) (e : NumError)
| MalformedConstraint (v : string).

Definition quote : string := String (ascii_of_nat 34) EmptyString.
Definition newline : string := String (ascii_of_nat 10) EmptyString.

(** [err.Error()]. *)
Definition Error (e : error) : string :=
  match e with
  | MalformedVersion v => "Malformed version: " ++ v
  | ErrorParsingVersion segment e =>
      "Error parsing version: strconv.ParseInt: parsing "
        ++ quote ++ segment ++ quote ++ ": "
        ++ match e with
           | ErrSyntax => "invalid syntax"
           | ErrRange => "value out of range"
           end
  | MalformedConstraint v => "Malformed constraint: " ++ v
  end%string.

(** ** Versions *)

Record Version : Type := mkVersion {
  metadata : string;
  pre : string;
  segments : list Z;        (* []int64 *)
  si : nat;
  original : string
}.

(** *** The version pattern

    [VersionRegexpRaw], anchored at both ends, is, with W for the class
    [0-9A-Za-z\-~], A for [A-Za-z\-~], D for [0-9] and spaces added:
<<
    v? ( D+ (\.D+)*? )
    ( - ( D+ W* (\.W+)* ) | ( -? ( A+ W* (\.W+)* ) ) )?
    ( \+ ( W+ (\.W+)* ) )??
>>
    Its groups are numbered by their opening parenthesis: 1 the dotted
    numbers, 4 and 7 the pre-release text of the first and of the second
    alternative, 10 the metadata.
    Nothing after group 1 can start with a digit or a dot, and neither
    alternative of the pre-release group can hold a [+]; so group 1 is
    the longest run of dotted numbers, the pre-release text runs up to the
    first [+], and the metadata is what follows it. *)

Definition is_alpha (c : ascii) : bool :=
  let n := nat_of_ascii c in
  ((65 <=? n) && (n <=? 90)) || ((97 <=? n) && (n <=? 122)).

(** The class [[A-Za-z\-~]]. *)
Definition is_word_start (c : ascii) : bool :=
  is_alpha c || Ascii.eqb c "-" || Ascii.eqb c "~".

(** The class [[0-9A-Za-z\-~]]. *)
Definition is_word (c : ascii) : bool := is_digit c || is_word_start c.

Fixpoint all_chars (p : ascii -> bool) (s : string) : bool :=
  match s with
  | EmptyString => true
  | String c s' => p c && all_chars p s'
  end.

(** One dot-separated piece: a character of class [first], then
    characters of [[0-9A-Za-z\-~]]. *)
Definition piece (first : ascii -> bool) (s : string) : bool :=
  match s with
  | EmptyString => false
  | String c s' => first c && all_chars is_word s'
  end.

(** [F[0-9A-Za-z\-~]*(\.[0-9A-Za-z\-~]+)*] matching all of [s], for [F]
    the class [first]. *)
Definition dotted (first : ascii -> bool) (s : string) : bool :=
  match strings_Split s "." with
  | [] => false
  | p :: ps => piece first p && forallb (piece is_word) ps
  end.

(** Group 1, [[0-9]+(\.[0-9]+)*], read off the front of a string that
    starts with a digit: the match and what is left. *)
Fixpoint numeric (s : string) : string * string :=
  match s with
  | EmptyString => (EmptyString, EmptyString)
  | String c s' =>
      if is_digit c then
        let (m, r) := numeric s' in (String c m, r)
      else if Ascii.eqb c "." then
        match s' with
        | String d _ =>
            if is_digit d then let (m, r) := numeric s' in (String c m, r)
            else (EmptyString, s)
        | EmptyString => (EmptyString, s)
        end
      else (EmptyString, s)
  end.

(** The text before the first [sep] and, when there is one, the text
    after it. *)
Fixpoint cut (sep : ascii) (s : string) : string * option string :=
  match s with
  | EmptyString => (EmptyString, None)
  | String c s' =>
      if Ascii.eqb c sep then (EmptyString, Some s')
      else let (a, b) := cut sep s' in (String c a, b)
  end.

(** Groups 4 and 7 on the pre-release text [p]: the first alternative
    (a dash, then a piece that starts with a digit) is tried first, then
    the second with its optional dash taken, then without. *)
Definition prerelease_groups (p : string) : option (string * string) :=
  match p with
  | EmptyString => Some (EmptyString, EmptyString)
  | String c q =>
      if Ascii.eqb c "-" && dotted is_digit q then Some (q, EmptyString)
      else if Ascii.eqb c "-" && dotted is_word_start q
           then Some (EmptyString, q)
      else if dotted is_word_start p then Some (EmptyString, p)
      else None
  end.

(** Group 10 on what follows the first [+], if any. *)
Definition metadata_group (m : option string) : option string :=
  match m with
  | None => Some EmptyString
  | Some m => if dotted is_word m then Some m else None
  end.

(** [versionRegexp.FindStringSubmatch(v)]: the groups 1, 4, 7 and 10, or
    nothing when [v] does not match. *)
Definition versionRegexp (v : string)
  : option (string * string * string * string) :=
  let v' := match v with
            | String c r => if Ascii.eqb c "v" then r else v
            | EmptyString => v
            end in
  match v' with
  | EmptyString => None
  | String c _ =>
      if is_digit c then
        let (m1, r) := numeric v' in
        let (p, m) := cut "+" r in
        match prerelease_groups p, metadata_group m with
        | Some (m4, m7), Some m10 => Some (m1, m4, m7, m10)
        | _, _ => None
        end
      else None
  end.

(** *** [NewVersion] *)

(** The loop over [segmentsStr]: the first segment that does not fit an
    [int64] ends the call. *)
Fixpoint parse_segments (strs : list string) : result error (list Z) :=
  match strs with
  | [] => Ok []
  | str :: rest =>
      match strconv_ParseInt str with
      | (_, Some e) => Err (ErrorParsingVersion str e)
      | (val, None) =>
          match parse_segments rest with
          | Err e => Err e
          | Ok vals => Ok (val :: vals)
          end
      end
  end.

(** "if we got less than three, pad it with 0s". *)
Definition pad (segments : list Z) : list Z :=
  segments ++ repeat 0%Z (3 - List.length segments).

Definition NewVersion (v : string) : result error Version :=
  match versionRegexp v with
  | None => Err (MalformedVersion v)
  | Some (m1, m4, m7, m10) =>
      let segmentsStr := strings_Split m1 "." in
      match parse_segments segmentsStr with
      | Err e => Err e
      | Ok segments =>
          let pre := if String.eqb m7 EmptyString then m4 else m7 in
          Ok (mkVersion m10 pre (pad segments)
                        (List.length segmentsStr) v)
      end
  end.

(** ** Comparing versions *)

(** [func (v *Version) String() string]: the segments joined by dots,
    then [-pre] and [+metadata] when they are not empty. *)
Definition Version_String (v : Version) : string :=
  (String.concat "." (map strconv_FormatInt (segments v))
     ++ (if String.eqb (pre v) "" then "" else "-" ++ pre v)
     ++ (if String.eqb (metadata v) "" then "" else "+" ++ metadata v))%string.

Definition Prerelease (v : Version) : string := pre v.
Definition Segments64 (v : Version) : list Z := segments v.

Definition allZero (segs : list Z) : bool := forallb (Z.eqb 0) segs.

(** [comparePart]: numeric parts sort below alphanumeric ones, an empty
    part is decided by the other one. *)
Definition comparePart (preSelf preOther : string) : Z :=
  if String.eqb preSelf preOther then 0%Z
  else
    let (selfInt, selfErr) := strconv_ParseInt preSelf in
    let selfNumeric := match selfErr with None => true | Some _ => false end in
    let (otherInt, otherErr) := strconv_ParseInt preOther in
    let otherNumeric :=
      match otherErr with None => true | Some _ => false end in
    if String.eqb preSelf "" then (if otherNumeric then -1 else 1)%Z
    else if String.eqb preOther "" then (if selfNumeric then 1 else -1)%Z
    else if selfNumeric && negb otherNumeric then (-1)%Z
    else if negb selfNumeric && otherNumeric then 1%Z
    else if negb selfNumeric && negb otherNumeric
            && String.ltb preOther preSelf then 1%Z
    else if (otherInt <? selfInt)%Z then 1%Z
    else (-1)%Z.

(** The loop of [comparePrereleases] over the dot-separated parts, a
    missing part read as the empty string: the first difference decides. *)
Fixpoint compare_parts (self other : list string) : Z :=
  match self with
  | [] =>
      (fix rest (other : list string) : Z :=
         match other with
         | [] => 0%Z
         | b :: other' =>
             let c := comparePart "" b in
             if (c =? 0)%Z then rest other' else c
         end) other
  | a :: self' =>
      match other with
      | [] =>
          let c := comparePart a "" in
          if (c =? 0)%Z then compare_parts self' [] else c
      | b :: other' =>
          let c := comparePart a b in
          if (c =? 0)%Z then compare_parts self' other' else c
      end
  end.

Definition comparePrereleases (v other : string) : Z :=
  if String.eqb v other then 0%Z
  else compare_parts (strings_Split v ".") (strings_Split other ".").

(** The segment loop of [Compare]: index by index, and once one side has
    run out the other side decides by whether its rest is all zero. *)
Fixpoint compare_segments (self other : list Z) : Z :=
  match self, other with
  | [], [] => 0%Z
  | [], _ :: _ => if allZero other then 0%Z else (-1)%Z
  | _ :: _, [] => if allZero self then 0%Z else 1%Z
  | lhs :: self', rhs :: other' =>
      if (lhs =? rhs)%Z then compare_segments self' other'
      else if (lhs <? rhs)%Z then (-1)%Z
      else 1%Z
  end.

(** [reflect.DeepEqual] on two [[]int64]. *)
Fixpoint DeepEqual (a b : list Z) : bool :=
  match a, b with
  | [], [] => true
  | x :: a', y :: b' => (x =? y)%Z && DeepEqual a' b'
  | _, _ => false
  end.

(** [func (v *Version) Compare(other *Version) int]. *)
Definition Compare (v other : Version) : Z :=
  if String.eqb (Version_String v) (Version_String other) then 0%Z
  else
    let segmentsSelf := Segments64 v in
    let segmentsOther := Segments64 other in
    if DeepEqual segmentsSelf segmentsOther then
      let preSelf := Prerelease v in
      let preOther := Prerelease other in
      if String.eqb preSelf "" && String.eqb preOther "" then 0%Z
      else if String.eqb preSelf "" then 1%Z
      else if String.eqb preOther "" then (-1)%Z
      else comparePrereleases preSelf preOther
    else compare_segments segmentsSelf segmentsOther.

Definition Equal (v o : Version) : bool := (Compare v o =? 0)%Z.
Definition LessThan (v o : Version) : bool := (Compare v o <? 0)%Z.

(** ** Constraints *)

(** [prereleaseCheck]: a constraint without pre-release matches only
    versions without one; a constraint with one matches a pre-release
    version only on the same segments. *)
Definition prereleaseCheck (v c : Version) : bool :=
  let vPre := negb (String.eqb (Prerelease v) "") in
  let cPre := negb (String.eqb (Prerelease c) "") in
  if cPre && vPre then DeepEqual (Segments64 c) (Segments64 v)
  else if negb cPre && vPre then false
  else true.

Definition constraintEqual (v c : Version) : bool := Equal v c.
Definition constraintNotEqual (v c : Version) : bool := negb (Equal v c).
Definition constraintGreaterThan (v c : Version) : bool :=
  prereleaseCheck v c && (Compare v c =? 1)%Z.
Definition constraintLessThan (v c : Version) : bool :=
  prereleaseCheck v c && (Compare v c =? -1)%Z.
Definition constraintGreaterThanEqual (v c : Version) : bool :=
  prereleaseCheck v c && (0 <=? Compare v c)%Z.
Definition constraintLessThanEqual (v c : Version) : bool :=
  prereleaseCheck v c && (Compare v c <=? 0)%Z.

(** [constraintPessimistic] ([~>]); no entry of the range table of
    [SupportedPlatforms] uses it. *)
Definition constraintPessimistic (v c : Version) : bool :=
  if negb (prereleaseCheck v c)
     || (negb (String.eqb (Prerelease c) "") && String.eqb (Prerelease v) "")
  then false
  else if LessThan v c then false
  else
    let cs := List.length (segments c) in
    if List.length (segments v) <? cs then false
    else if negb (DeepEqual (firstn (si c - 1) (segments v))
                            (firstn (si c - 1) (segments c))) then false
    else negb (nth (cs - 1) (segments v) 0 <? nth (cs - 1) (segments c) 0)%Z.

(** The operators of [constraintOperators]. *)
Inductive operator : Type :=
| opEqual | opNotEqual | opGreaterThan | opLessThan
| opGreaterThanEqual | opLessThanEqual | opPessimistic.

Definition constraintOperators (op : string) : option operator :=
  if String.eqb op "" then Some opEqual
  else if String.eqb op "=" then Some opEqual
  else if String.eqb op "!=" then Some opNotEqual
  else if String.eqb op ">" then Some opGreaterThan
  else if String.eqb op "<" then Some opLessThan
  else if String.eqb op ">=" then Some opGreaterThanEqual
  else if String.eqb op "<=" then Some opLessThanEqual
  else if String.eqb op "~>" then Some opPessimistic
  else None.

Definition constraintFunc (op : operator) : Version -> Version -> bool :=
  match op with
  | opEqual => constraintEqual
  | opNotEqual => constraintNotEqual
  | opGreaterThan => constraintGreaterThan
  | opLessThan => constraintLessThan
  | opGreaterThanEqual => constraintGreaterThanEqual
  | opLessThanEqual => constraintLessThanEqual
  | opPessimistic => constraintPessimistic
  end.

Record Constraint : Type := mkConstraint {
  f : operator;
  check : Version;
  constraint_original : string
}.

Definition Constraints : Type := list Constraint.

(** *** The constraint pattern

    [constraintRegexp] is [^\s*(op)\s*(version)\s*$], [op] one of the
    keys of [constraintOperators] and [version] the version pattern.  A
    version starts with [v] or a digit, so the operator is the run of
    operator characters in front of it. *)

(** The class [\s]: tab, line feed, form feed, carriage return, space. *)
Definition is_space (c : ascii) : bool :=
  let n := nat_of_ascii c in
  (n =? 9) || (n =? 10) || (n =? 12) || (n =? 13) || (n =? 32).

Definition is_operator_char (c : ascii) : bool :=
  Ascii.eqb c "=" || Ascii.eqb c "!" || Ascii.eqb c ">"
  || Ascii.eqb c "<" || Ascii.eqb c "~".

(** The longest prefix of characters of class [p], and the rest. *)
Fixpoint span (p : ascii -> bool) (s : string) : string * string :=
  match s with
  | EmptyString => (EmptyString, EmptyString)
  | String c s' =>
      if p c then let (a, b) := span p s' in (String c a, b)
      else (EmptyString, s)
  end.

(** [s] without its trailing characters of class [\s]. *)
Fixpoint trim_right (s : string) : string :=
  match s with
  | EmptyString => EmptyString
  | String c s' =>
      match trim_right s' with
      | EmptyString => if is_space c then EmptyString
                       else String c EmptyString
      | t => String c t
      end
  end.

(** [constraintRegexp.FindStringSubmatch(v)]: groups 1 and 2. *)
Definition constraintRegexp (v : string) : option (string * string) :=
  let (_, s1) := span is_space v in
  let (op, s2) := span is_operator_char s1 in
  let (_, s3) := span is_space s2 in
  let ver := trim_right s3 in
  match constraintOperators op, versionRegexp ver with
  | Some _, Some _ => Some (op, ver)
  | _, _ => None
  end.

Definition parseSingle (v : string) : result error Constraint :=
  match constraintRegexp v with
  | None => Err (MalformedConstraint v)
  | Some (m1, m2) =>
      match NewVersion m2 with
      | Err e => Err e
      | Ok check =>
          match constraintOperators m1 with
          | Some op => Ok (mkConstraint op check v)
          | None => Err (MalformedConstraint v)
          end
      end
  end.

Fixpoint parse_all (vs : list string) : result error Constraints :=
  match vs with
  | [] => Ok []
  | single :: rest =>
      match parseSingle single with
      | Err e => Err e
      | Ok c =>
          match parse_all rest with
          | Err e => Err e
          | Ok cs => Ok (c :: cs)
          end
      end
  end.

(** [func NewConstraint(v string) (Constraints, error)]. *)
Definition NewConstraint (v : string) : result error Constraints :=
  parse_all (strings_Split v ",").

(** [func (c *Constraint) Check(v *Version) bool]. *)
Definition Constraint_Check (c : Constraint) (v : Version) : bool :=
  constraintFunc (f c) v (check c).

(** [func (cs Constraints) Check(v *Version) bool]: every constraint of
    the list holds. *)
Fixpoint Constraints_Check (cs : Constraints) (v : Version) : bool :=
  match cs with
  | [] => true
  | c :: cs' => if Constraint_Check c v then Constraints_Check cs' v else false
  end.
End version.

(* ================================================================== *)
(** * platform.go: SupportedPlatforms (lines 175-221)                   *)
(* ================================================================== *)

(** How a call ends: with the returned slice, or in the [panic(err)] of
    line 212. *)
Inductive Outcome : Type :=
| Returns (plat : Go.Slice)
| Panics (err : version.error).

(** The messages the call handed to [log.Printf] (the logger's prefix and
    time stamp left out), and how the call ended. *)
Record Call : Type := mkCall {
  logged : list string;
  outcome : Outcome
}.

(** The local table [platforms] (lines 191-207). *)
Definition platforms (g : Globals) : list (string * Go.Slice) :=
  [ ("<= 1.0", Platforms_1_0 g);
    (">= 1.1, < 1.3", Platforms_1_1 g);
    (">= 1.3, < 1.4", Platforms_1_3 g);
    (">= 1.4, < 1.5", Platforms_1_4 g);
    (">= 1.5, < 1.6", Platforms_1_5 g);
    (">= 1.6, < 1.7", Platforms_1_6 g);
    (">= 1.7, < 1.8", Platforms_1_7 g);
    (">= 1.8, < 1.9", Platforms_1_8 g);
    (">= 1.9, < 1.10", Platforms_1_9 g);
    (">=1.10, < 1.11", Platforms_1_10 g);
    (">=1.11, < 1.12", Platforms_1_11 g);
    (">=1.12, < 1.13", Platforms_1_12 g) ].

(** How the loop of lines 209-217 ends: at the first entry whose
    constraint holds, in a panic on a constraint that does not parse, or
    past the last entry. *)
Inductive Scan : Type :=
| Matched (plat : Go.Slice)
| Panicked (err : version.error)
| Exhausted.

Fixpoint range_loop (current : version.Version)
         (table : list (string * Go.Slice)) : Scan :=
  match table with
  | [] => Exhausted
  | (constraint, plat) :: rest =>
      match version.NewConstraint constraint with
      | Go.Err err => Panicked err
      | Go.Ok constraints =>
          if version.Constraints_Check constraints current
          then Matched plat
          else range_loop current rest
      end
  end.

Definition SupportedPlatforms (g : Globals) (v : string) : Call :=
  if negb (Go.strings_HasPrefix v "go") then
    mkCall [] (Returns (PlatformsLatest g))
  else
    let v := Go.string_from 2 v in
    match version.NewVersion v with
    | Go.Err err =>
        mkCall [("Unable to parse current go version: " ++ v
                   ++ version.newline ++ version.Error err)%string]
               (Returns (PlatformsLatest g))
    | Go.Ok current =>
        match range_loop current (platforms g) with
        | Matched plat => mkCall [] (Returns plat)
        | Panicked err => mkCall [] (Panics err)
        | Exhausted => mkCall [] (Returns (Platforms_1_12 g))
        end
    end.

(* ================================================================== *)
(** * Vocabulary of the statements                                      *)
(* ================================================================== *)

Section SliceInvariants.
Context {T : Type}.

(** A slice header that points at an array of the heap of exactly its
    capacity. *)
Definition wf (h : Go.Heap (T := T)) (s : Go.Slice) : Prop :=
  Go.array s < List.length h
  /\ List.length (Go.load h (Go.array s)) = Go.cap s
  /\ Go.len s <= Go.cap s.

(** [holds h s n c]: in heap [h] the slice [s] has length [n] and its
    first cells are [c]. *)
Definition holds (h : Go.Heap (T := T)) (s : Go.Slice) (n : nat) (c : list T) : Prop :=
  wf h s /\ Go.len s = n /\ List.length c <= n
  /\ firstn (List.length c) (Go.load h (Go.array s)) = c.

(** [known h s c]: the slice [s] denotes exactly [c]. *)
Definition known (h : Go.Heap (T := T)) (s : Go.Slice) (c : list T) : Prop :=
  holds h s (List.length c) c.

End SliceInvariants.

(** What initialisation guarantees whatever capacities the runtime picks:
    every snapshot but [Platforms_1_6] denotes what its initialiser reads
    as; [Platforms_1_6] has its 32 elements, the first 29 those of
    [Platforms_1_5]; the two aliases are the slices they are assigned. *)
Definition initialised (g : Globals) : Prop :=
  contents g (Platforms_1_0 g) = def_1_0
  /\ contents g (Platforms_1_1 g) = def_1_1
  /\ contents g (Platforms_1_3 g) = def_1_3
  /\ contents g (Platforms_1_4 g) = def_1_4
  /\ contents g (Platforms_1_5 g) = def_1_5
  /\ (List.length (contents g (Platforms_1_6 g)) = 32
      /\ firstn 29 (contents g (Platforms_1_6 g)) = def_1_5)
  /\ contents g (Platforms_1_7 g) = def_1_7
  /\ contents g (Platforms_1_8 g) = def_1_8
  /\ contents g (Platforms_1_9 g) = def_1_9
  /\ contents g (Platforms_1_11 g) = def_1_11
  /\ contents g (Platforms_1_12 g) = def_1_12
  /\ Platforms_1_10 g = Platforms_1_9 g
  /\ PlatformsLatest g = Platforms_1_12 g.

(** A version as the range table writes its bounds: no pre-release, no
    metadata, segments that are not negative. *)
Definition release (c : version.Version) : Prop :=
  version.pre c = EmptyString
  /\ version.metadata c = EmptyString
  /\ version.segments c <> []
  /\ Forall (fun z => 0 <= z)%Z (version.segments c).

(** What [NewVersion] guarantees of the segments of its result. *)
Definition parsed (v : version.Version) : Prop :=
  3 <= List.length (version.segments v)
  /\ Forall (fun z => 0 <= z)%Z (version.segments v).

(** The characters of a rendered release: digits and dots. *)
Definition plain (c : ascii) : bool := Go.is_digit c || Ascii.eqb c ".".

(** [s] holds no [sep]. *)
Definition free_of (sep : ascii) (s : string) : bool :=
  version.all_chars (fun c => negb (Ascii.eqb c sep)) s.

(** The entry of the table a parsed version lands in, read off its
    pre-release and its segments ([range_loop_entry] below proves it is
    what the loop does): versions with a pre-release satisfy no entry;
    below major version 1 the first entry is taken, above it none; 1.0 and
    its patch level zero is in the first entry, any other 1.0.x in none;
    1.1 up to 1.12 are in the entries that follow, 1.13 and later in none. *)
Definition entry_of (v : version.Version) : option nat :=
  if negb (String.eqb (version.pre v) "") then None
  else
    match version.segments v with
    | a :: b :: rest =>
        if (a <? 1)%Z then Some 0
        else if (1 <? a)%Z then None
        else if (b =? 0)%Z
             then (if version.allZero rest then Some 0 else None)
        else if (b <? 3)%Z then Some 1
        else if (b <? 4)%Z then Some 2
        else if (b <? 5)%Z then Some 3
        else if (b <? 6)%Z then Some 4
        else if (b <? 7)%Z then Some 5
        else if (b <? 8)%Z then Some 6
        else if (b <? 9)%Z then Some 7
        else if (b <? 10)%Z then Some 8
        else if (b <? 11)%Z then Some 9
        else if (b <? 12)%Z then Some 10
        else if (b <? 13)%Z then Some 11
        else None
    | _ => None
    end.

(** The snapshot of the [i]-th entry of the table. *)
Definition snapshot_at (g : Globals) (i : nat) : Go.Slice :=
  nth i (map snd (platforms g)) (Platforms_1_12 g).

(** [v] satisfies the constraint written [c] (false when [c] does not
    parse). *)
Definition in_range (c : string) (v : version.Version) : bool :=
  match version.NewConstraint c with
  | Go.Ok cs => version.Constraints_Check cs v
  | Go.Err _ => false
  end.

(** [v] falls within the range of some entry of the table. *)
Definition within_table (g : Globals) (v : version.Version) : bool :=
  existsb (fun e => in_range (fst e) v) (platforms g).

(** Membership of a platform in a list, decided. *)
Definition Platform_eqb (p q : Platform) : bool :=
  String.eqb (OS p) (OS q) && String.eqb (Arch p) (Arch q)
  && Bool.eqb (Default p) (Default q).

Definition has (l : list Platform) (p : Platform) : bool :=
  existsb (Platform_eqb p) l.

(** Two entries of a list at different positions with the same OS and
    Arch. *)
Definition same_target (p q : Platform) : bool :=
  String.eqb (OS p) (OS q) && String.eqb (Arch p) (Arch q).

Fixpoint unique_targets (l : list Platform) : bool :=
  match l with
  | [] => true
  | p :: l' => negb (existsb (same_target p) l') && unique_targets l'
  end.


(** The entry of a release 1.b, as a step function of the minor version
    (for [b] between 0 and 12). *)
Definition step (b : Z) : nat :=
  if (b <? 1)%Z then 0
  else if (b <? 3)%Z then 1
  else if (b <? 4)%Z then 2
  else if (b <? 5)%Z then 3
  else if (b <? 6)%Z then 4
  else if (b <? 7)%Z then 5
  else if (b <? 8)%Z then 6
  else if (b <? 9)%Z then 7
  else if (b <? 10)%Z then 8
  else if (b <? 11)%Z then 9
  else if (b <? 12)%Z then 10
  else 11.

(** What the initialisers of the snapshots read as, by table entry. *)
Definition defs : list (list Platform) :=
  [ def_1_0; def_1_1; def_1_3; def_1_4; def_1_5; def_1_6;
    def_1_7; def_1_8; def_1_9; def_1_10; def_1_11; def_1_12 ].

(** Entry [i] is included in entry [j], for all [i <= j] other than
    the 1.6 entry (index 5), decided by enumeration. *)
Definition defs_grow : bool :=
  forallb (fun i =>
    forallb (fun j =>
      if (i <=? j) && negb (i =? 5) && negb (j =? 5)
      then forallb (has (nth j defs [])) (nth i defs [])
      else true) (seq 0 12)) (seq 0 12).

(* ================================================================== *)
(** * Facts about slices and [append]                                   *)
(* ================================================================== *)

Section SliceFacts.
Context {T : Type}.
Variable zero : T.
Variable growcap : nat -> nat -> nat.

Let Heap : Type := Go.Heap (T := T).

Lemma load_store_same (h : Heap) a cells :
  a < List.length h -> Go.load (Go.store h a cells) a = cells.
Proof.
  intros Ha. unfold Go.load, Go.store.
  rewrite app_nth2; rewrite length_firstn, Nat.min_l by lia; [|lia].
  now rewrite Nat.sub_diag.
Qed.

Lemma load_store_other (h : Heap) a b cells :
  a < List.length h -> a <> b -> Go.load (Go.store h a cells) b = Go.load h b.
Proof.
  intros Ha Hab. unfold Go.load, Go.store.
  destruct (Nat.lt_ge_cases b a) as [Hlt|Hge].
  - rewrite app_nth1 by (rewrite length_firstn; lia).
    now rewrite nth_firstn, (proj2 (Nat.ltb_lt b a) Hlt).
  - rewrite app_nth2; rewrite length_firstn, Nat.min_l by lia; [|lia].
    destruct (b - a) as [|k] eqn:Hk; [lia|]. cbn [nth].
    rewrite nth_skipn. f_equal. lia.
Qed.

Lemma length_store (h : Heap) a cells :
  a < List.length h -> List.length (Go.store h a cells) = List.length h.
Proof.
  intros Ha. unfold Go.store.
  rewrite length_app, length_firstn. cbn [List.length].
  rewrite length_skipn. lia.
Qed.

Lemma length_write (cells : list T) i xs :
  i + List.length xs <= List.length cells ->
  List.length (Go.write cells i xs) = List.length cells.
Proof.
  intros Hi. unfold Go.write.
  rewrite !length_app, length_firstn, length_skipn. lia.
Qed.

Lemma firstn_write_below (cells : list T) i xs n :
  n <= i -> i <= List.length cells ->
  firstn n (Go.write cells i xs) = firstn n cells.
Proof.
  intros Hn Hi. unfold Go.write.
  rewrite firstn_app, length_firstn, Nat.min_l by lia.
  replace (n - i) with 0 by lia. cbn [firstn]. rewrite app_nil_r.
  rewrite firstn_firstn. f_equal. lia.
Qed.

Lemma firstn_write_new (cells : list T) i xs :
  i <= List.length cells ->
  firstn (i + List.length xs) (Go.write cells i xs) = firstn i cells ++ xs.
Proof.
  intros Hi. unfold Go.write.
  rewrite firstn_app, length_firstn, Nat.min_l by lia.
  rewrite firstn_all2 by (rewrite length_firstn; lia).
  f_equal.
  replace (i + List.length xs - i) with (List.length xs) by lia.
  rewrite firstn_app, Nat.sub_diag. cbn [firstn].
  now rewrite firstn_all, app_nil_r.
Qed.

Lemma known_view h s (c : list T) : known h s c -> Go.view h s = c.
Proof.
  intros (_ & Hlen & _ & Hc). unfold Go.view. now rewrite Hlen.
Qed.

Lemma holds_prefix h s n (c : list T) :
  holds h s n c -> firstn (List.length c) (Go.view h s) = c.
Proof.
  intros (_ & Hlen & Hle & Hc). unfold Go.view.
  rewrite firstn_firstn, Hlen, Nat.min_l by lia. exact Hc.
Qed.

Lemma holds_length h s n (c : list T) : holds h s n c -> List.length (Go.view h s) = n.
Proof.
  intros ((_ & Hcap & Hle) & Hlen & _ & _). unfold Go.view.
  rewrite length_firstn. lia.
Qed.

Lemma firstn_known (l c : list T) k :
  firstn (List.length c) l = c ->
  firstn (List.length (firstn k c)) l = firstn k c.
Proof.
  intros Hc. rewrite <- Hc at 2.
  rewrite firstn_firstn, length_firstn. f_equal; lia.
Qed.

(** A composite literal denotes its elements and leaves every other
    slice as it was. *)
Lemma slice_lit_spec (xs : list T) h s h' :
  Go.slice_lit xs h = (s, h') ->
  known h' s xs
  /\ forall t n c, holds h t n c -> holds h' t n c.
Proof.
  unfold Go.slice_lit. intros E. injection E as <- <-. split.
  - unfold known, holds, wf, Go.load. cbn [Go.array Go.len Go.cap].
    rewrite length_app. cbn [List.length].
    rewrite app_nth2, Nat.sub_diag by lia. cbn [nth].
    rewrite firstn_all. repeat split; lia.
  - intros t n c ((Ha & Hcap & Hle) & Hlen & Hn & Hc).
    unfold holds, wf, Go.load in *. rewrite length_app.
    rewrite app_nth1 by lia. repeat split; trivial. lia.
Qed.

(** [append]: the result denotes the operand followed by the values; of
    any other slice, the cells below the operand's length are kept. *)
Lemma append_spec s (c : list T) xs h s' h' :
  known h s c ->
  Go.append zero growcap s xs h = (s', h') ->
  known h' s' (c ++ xs)
  /\ forall t n c', holds h t n c' ->
                    holds h' t n (firstn (List.length c) c').
Proof.
  intros ((Ha & Hcap & Hle) & Hlen & _ & Hc). unfold Go.append.
  destruct (Nat.leb_spec (Go.len s + List.length xs) (Go.cap s)) as [Hfit|Hgrow];
    intros E; injection E as <- <-.
  - (* the capacity suffices: the values go into the array of [s] *)
    split.
    + unfold known, holds, wf. cbn [Go.array Go.len Go.cap].
      rewrite length_store, load_store_same by trivial.
      rewrite length_write by lia.
      rewrite length_app, <- Hlen, firstn_write_new, Hlen, Hc by lia.
      repeat split; trivial; lia.
    + intros t n c' ((Hta & Htcap & Htle) & Htlen & Htn & Htc).
      assert (Hk : List.length (firstn (List.length c) c') <= Go.len s)
        by (rewrite length_firstn; lia).
      assert (Hk' : List.length (firstn (List.length c) c') <= n)
        by (rewrite length_firstn; lia).
      unfold holds, wf. rewrite length_store by trivial.
      destruct (Nat.eq_dec (Go.array s) (Go.array t)) as [Heq|Hne].
      * rewrite <- Heq, load_store_same by trivial.
        rewrite length_write by lia.
        rewrite firstn_write_below by lia.
        rewrite Heq. repeat split; trivial.
        now apply firstn_known.
      * rewrite load_store_other by trivial.
        repeat split; trivial.
        now apply firstn_known.
  - (* a new array *)
    split.
    + unfold known, holds, wf, Go.load. cbn [Go.array Go.len Go.cap].
      rewrite length_app. cbn [List.length].
      rewrite app_nth2, Nat.sub_diag by lia. cbn [nth].
      assert (Hv : Go.view h s = c) by (unfold Go.view; now rewrite Hlen).
      rewrite Hv, !length_app, repeat_length.
      rewrite app_assoc, firstn_app, length_app, Nat.sub_diag.
      cbn [firstn]. rewrite app_nil_r.
      rewrite firstn_all2 by (rewrite length_app; lia).
      repeat split; lia.
    + intros t n c' ((Hta & Htcap & Htle) & Htlen & Htn & Htc).
      assert (Hk' : List.length (firstn (List.length c) c') <= n)
        by (rewrite length_firstn; lia).
      unfold holds, wf, Go.load in *. rewrite length_app.
      rewrite app_nth1 by lia. repeat split; trivial; try lia.
      now apply firstn_known.
Qed.
(** The two ways [append] goes. *)
Lemma append_result (s : Go.Slice) (xs : list T) h s' h' :
  Go.append zero growcap s xs h = (s', h') ->
  (Go.len s + List.length xs <= Go.cap s
   /\ s' = Go.mkSlice (Go.array s) (Go.len s + List.length xs) (Go.cap s))
  \/ (Go.cap s < Go.len s + List.length xs
      /\ Go.array s' = List.length h).
Proof.
  unfold Go.append.
  destruct (Nat.leb_spec (Go.len s + List.length xs) (Go.cap s));
    intros E; injection E as <- <-; [left|right]; split; trivial.
Qed.

(** When [append] has to allocate, no slice there was changes. *)
Lemma append_fresh s (c : list T) xs h s' h' :
  known h s c ->
  Go.cap s < Go.len s + List.length xs ->
  Go.append zero growcap s xs h = (s', h') ->
  forall t n c', holds h t n c' -> holds h' t n c'.
Proof.
  intros _ Hgrow. unfold Go.append.
  rewrite (proj2 (Nat.leb_gt _ _) Hgrow).
  intros E. injection E as <- <-.
  intros t n c' ((Hta & Htcap & Htle) & Htlen & Htn & Htc).
  unfold holds, wf, Go.load in *. rewrite length_app.
  rewrite app_nth1 by lia. repeat split; trivial; lia.
Qed.

Lemma firstn_app_within (c xs rest : list T) n :
  n <= List.length c + List.length xs ->
  firstn n (c ++ xs ++ rest) = firstn n (c ++ xs).
Proof.
  intros Hn. rewrite app_assoc, (firstn_app n (c ++ xs) rest).
  replace (n - List.length (c ++ xs)) with 0 by (rewrite length_app; lia).
  cbn [firstn]. apply app_nil_r.
Qed.

(** When [append] writes in place, slices on other arrays are as they
    were, and a slice on the same array that reaches into the written
    cells now denotes what was written there. *)
Lemma append_in_place s (c : list T) xs h s' h' :
  known h s c ->
  Go.len s + List.length xs <= Go.cap s ->
  Go.append zero growcap s xs h = (s', h') ->
  (forall t n c', holds h t n c' -> Go.array t <> Go.array s ->
                  holds h' t n c')
  /\ (forall t n, wf h t -> Go.array t = Go.array s -> Go.len t = n ->
                  List.length c <= n <= List.length c + List.length xs ->
                  known h' t (firstn n (c ++ xs))).
Proof.
  intros ((Ha & Hcap & Hle) & Hlen & _ & Hc) Hfit. unfold Go.append.
  rewrite (proj2 (Nat.leb_le _ _) Hfit).
  intros E. injection E as <- <-. split.
  - intros t n c' ((Hta & Htcap & Htle) & Htlen & Htn & Htc) Hne.
    unfold holds, wf. rewrite length_store by trivial.
    rewrite load_store_other by congruence. now repeat split.
  - intros t n (Hta & Htcap & Htle) Heq Htlen Hn.
    assert (Hl : List.length (firstn n (c ++ xs)) = n)
      by (rewrite length_firstn, length_app; lia).
    unfold known, holds, wf. rewrite Hl, length_store by trivial.
    rewrite Heq, load_store_same by trivial.
    rewrite length_write by lia.
    rewrite <- Heq. repeat split; trivial; try lia.
    rewrite Heq. unfold Go.write. rewrite Hlen, Hc.
    apply firstn_app_within. lia.
Qed.
End SliceFacts.

(* ================================================================== *)
(** * The snapshots after initialisation, for every growth policy       *)
(* ================================================================== *)

(** One initialiser [x = append(s, xs...)]: name its result, record what
    it denotes and carry what is known of the other slices across. *)
Ltac normalise K :=
  unfold known in K;
  match type of K with
  | holds ?h ?t ?n ?l =>
      let n' := eval vm_compute in n in
      let l' := eval vm_compute in l in
      change (holds h t n' l') in K
  end.

Ltac carry F :=
  repeat match goal with
    | K : holds ?h ?t ?n ?c |- _ =>
        lazymatch type of F with
        | (forall t n c, holds h t n c -> _) =>
            let K' := fresh "K" in
            pose proof (F _ _ _ K) as K'; clear K; normalise K'
        end
    end.

Ltac run_append :=
  match goal with
  | |- context [Go.append ?z ?gr ?s ?xs ?h] =>
      match goal with
      | Ks : holds h s ?n ?l |- _ =>
          let p := fresh "p" in
          let h' := fresh "h" in
          let E := fresh "E" in
          let K := fresh "K" in
          let F := fresh "F" in
          destruct (Go.append z gr s xs h) as [p h'] eqn:E;
          destruct (append_spec _ _ _ _ _ _ _ _ (Ks : known h s l) E) as [K F];
          clear E; carry F; clear F; normalise K
      end
  end.

Ltac conclude :=
  match goal with
  | K : holds ?h ?s ?n ?l |- Go.view ?h ?s = _ =>
      exact (known_view _ _ _ (K : known h s l))
  | K : holds ?h ?s ?n ?l |- List.length (Go.view ?h ?s) = _ =>
      exact (holds_length _ _ _ _ K)
  | K : holds ?h ?s ?n ?l |- firstn _ (Go.view ?h ?s) = _ =>
      exact (holds_prefix _ _ _ _ K)
  | |- _ => reflexivity
  end.

Lemma init_initialised (growcap : nat -> nat -> nat) :
  initialised (init growcap).
Proof.
  cbv beta iota zeta delta [init initialize Go.bind Go.heap Go.ret].
  destruct (Go.slice_lit lit_1_0 []) as [p0 h0] eqn:E0.
  destruct (slice_lit_spec _ _ _ _ E0) as [K0 _]. clear E0. normalise K0.
  do 10 run_append.
  unfold initialised, contents.
  cbn [fst Platforms_1_0 Platforms_1_1 Platforms_1_3 Platforms_1_4
       Platforms_1_5 Platforms_1_6 Platforms_1_7 Platforms_1_8
       Platforms_1_9 Platforms_1_10 Platforms_1_11 Platforms_1_12
       PlatformsLatest mem].
  repeat split; conclude.
Qed.

(** A fact [holds h s n l] with [n] the length of [l], as [known h s l]. *)
Ltac known_of K :=
  match type of K with
  | holds ?h ?s _ ?l => constr:(K : known h s l)
  end.

(** [Platforms_1_6] and [Platforms_1_7] are both [append(Platforms_1_5, ...)].
    Whether the second append, of five values to a slice of length 29,
    finds room in the array of [Platforms_1_5] decides what the 1.6
    snapshot denotes in the end: with a capacity of 34 or more its last
    three cells are overwritten by the first three values of the 1.7
    initialiser; with less, it is what its own initialiser reads as. *)
Lemma init_1_6 (growcap : nat -> nat -> nat) :
  let g := init growcap in
  (34 <= Go.cap (Platforms_1_5 g) ->
   contents g (Platforms_1_6 g) = def_1_5 ++ firstn 3 add_1_7)
  /\ (Go.cap (Platforms_1_5 g) < 34 ->
      contents g (Platforms_1_6 g) = def_1_6).
Proof.
  cbv beta iota zeta delta [init initialize Go.bind Go.heap Go.ret].
  destruct (Go.slice_lit lit_1_0 []) as [p0 h0] eqn:E0.
  destruct (slice_lit_spec _ _ _ _ E0) as [K0 _]. clear E0. normalise K0.
  do 4 run_append.
  match goal with
  | |- context [Go.append ?z ?gr ?s add_1_6 ?h] =>
      match goal with
      | Ks : holds h s ?n ?l |- _ =>
          rename s into p15; rename h into h15; rename Ks into K15
      end
  end.
  destruct (Go.append Platform_zero growcap p15 add_1_6 h15) as [p16 h16] eqn:E6.
  pose proof (append_result _ _ _ _ _ _ _ E6) as R6.
  let k := known_of K15 in
  destruct (append_spec _ _ _ _ _ _ _ _ k E6) as [K16 F6].
  clear E6. carry F6. clear F6. normalise K16.
  match goal with
  | K : holds h16 p15 _ _ |- _ => rename K into K15
  end.
  destruct (Go.append Platform_zero growcap p15 add_1_7 h16) as [p17 h17] eqn:E7.
  assert (S16 : id ((34 <= Go.cap p15
                     /\ holds h17 p16 32 (def_1_5 ++ firstn 3 add_1_7))
                    \/ (Go.cap p15 < 34 /\ holds h17 p16 32 def_1_6))).
  { pose proof K15 as (_ & Hlen15 & _).
    destruct (append_result _ _ _ _ _ _ _ E7) as [[Hfit7 _]|[Hgrow7 _]];
      cbn [List.length add_1_7] in *; [left|right]; (split; [lia|]).
    - destruct R6 as [[_ ->]|[Hgrow6 _]]; [|cbn [List.length add_1_6] in *; lia].
      let k := known_of K15 in
      destruct (append_in_place _ _ _ _ add_1_7 _ _ _ k Hfit7 E7) as [_ Hsame].
      exact (Hsame _ 32 (proj1 K16) eq_refl (proj1 (proj2 K16))
                   ltac:(cbn; lia)).
    - let k := known_of K15 in
      exact (append_fresh _ _ _ _ add_1_7 _ _ _ k Hgrow7 E7 _ _ _ K16). }
  clear K16 R6.
  let k := known_of K15 in
  destruct (append_spec _ _ _ _ _ _ _ _ k E7) as [K17 F7].
  clear E7. carry F7. clear F7. normalise K17.
  unfold id in S16.
  destruct S16 as [[Hcap S16]|[Hcap S16]]; normalise S16;
    do 4 run_append;
    unfold contents; cbn [fst Platforms_1_5 Platforms_1_6 mem];
    (split; intros Hc; [|]); try lia;
    match goal with
    | K : holds ?h p16 _ ?l |- Go.view ?h p16 = _ =>
        exact (known_view _ _ _ (K : known h p16 l))
    end.
Qed.

(* ================================================================== *)
(** * Facts about strings and numbers                                   *)
(* ================================================================== *)

Section StringFacts.
Import Go version.

Lemma all_chars_app p (a b : string) :
  all_chars p (a ++ b)%string = all_chars p a && all_chars p b.
Proof.
  induction a as [|c a IH]; cbn [String.append all_chars]; trivial.
  now rewrite IH, andb_assoc.
Qed.

Lemma all_chars_weaken (p q : ascii -> bool) s :
  (forall c, p c = true -> q c = true) ->
  all_chars p s = true -> all_chars q s = true.
Proof.
  intros Hpq. induction s as [|c s IH]; cbn [all_chars]; trivial.
  rewrite !andb_true_iff. intros [Hc Hs]. auto.
Qed.

Lemma append_empty_r (s : string) : (s ++ "")%string = s.
Proof. induction s as [|c s IH]; cbn; congruence. Qed.

Lemma append_assoc (a b c : string) :
  ((a ++ b) ++ c)%string = (a ++ (b ++ c))%string.
Proof. induction a as [|x a IH]; cbn; congruence. Qed.

(** *** [strconv.FormatInt] prints digits, after a sign if negative *)

Lemma uint_digits d : all_chars is_digit (NilEmpty.string_of_uint d) = true.
Proof. induction d; cbn [NilEmpty.string_of_uint all_chars]; trivial. Qed.

Lemma FormatInt_digits z :
  (0 <= z)%Z -> all_chars is_digit (strconv_FormatInt z) = true.
Proof.
  intros Hz. unfold strconv_FormatInt.
  destruct z as [|p|p]; [reflexivity| |lia].
  cbn [Z.to_int NilZero.string_of_int]. unfold NilZero.string_of_uint.
  destruct (Pos.to_uint p) eqn:E; try (rewrite <- E; apply uint_digits).
  reflexivity.
Qed.

Lemma FormatInt_nonempty z : strconv_FormatInt z <> EmptyString.
Proof.
  unfold strconv_FormatInt.
  destruct z as [|p|p]; cbn [Z.to_int NilZero.string_of_int];
    try discriminate.
  unfold NilZero.string_of_uint.
  pose proof (Unsigned.to_uint_nonnil p) as Hp.
  destruct (Pos.to_uint p); cbn; try discriminate; congruence.
Qed.

Lemma FormatInt_inj a b :
  strconv_FormatInt a = strconv_FormatInt b -> a = b.
Proof.
  unfold strconv_FormatInt. intros E. apply to_int_inj.
  assert (Hnn : forall z, Z.to_int z <> Decimal.Pos Decimal.Nil
                          /\ Z.to_int z <> Decimal.Neg Decimal.Nil).
  { intros [|p|p]; cbn; split; try discriminate;
      intros H; injection H; apply Unsigned.to_uint_nonnil. }
  pose proof (NilZero.isi _ (proj1 (Hnn a)) (proj2 (Hnn a))) as Ha.
  pose proof (NilZero.isi _ (proj1 (Hnn b)) (proj2 (Hnn b))) as Hb.
  rewrite E in Ha. congruence.
Qed.

(** *** [strings.Split] undoes a join of pieces free of the separator *)

Lemma split_go_app sep p rest cur :
  free_of sep p = true ->
  split_go sep (p ++ rest) cur = split_go sep rest (cur ++ p).
Proof.
  revert cur. induction p as [|c p IH]; intros cur; cbn.
  - now rewrite append_empty_r.
  - unfold free_of. cbn [all_chars]. rewrite andb_true_iff.
    intros [Hc Hp]. apply negb_true_iff in Hc. rewrite Hc.
    rewrite IH by exact Hp. now rewrite append_assoc.
Qed.

Lemma split_go_concat sep x l cur :
  Forall (fun p => free_of sep p = true) (x :: l) ->
  split_go sep (String.concat (String sep "") (x :: l)) cur
  = (cur ++ x)%string :: l.
Proof.
  revert x cur. induction l as [|y l IH]; intros x cur H.
  - cbn [String.concat]. rewrite <- (append_empty_r x) at 1.
    rewrite split_go_app by now inversion H. reflexivity.
  - inversion H as [|? ? Hx Hl]; subst.
    change (String.concat (String sep "") (x :: y :: l))
      with (x ++ String sep "" ++ String.concat (String sep "") (y :: l))%string.
    rewrite split_go_app by exact Hx.
    cbn [String.append split_go]. rewrite Ascii.eqb_refl.
    now rewrite IH.
Qed.

Lemma Split_concat sep x l :
  Forall (fun p => free_of sep p = true) (x :: l) ->
  strings_Split (String.concat (String sep "") (x :: l)) sep = x :: l.
Proof. intros H. unfold strings_Split. now rewrite split_go_concat. Qed.
End StringFacts.

(* ================================================================== *)
(** * Facts about go-version                                            *)
(* ================================================================== *)

Section VersionFacts.
Import Go version.

Lemma DeepEqual_eq a b : DeepEqual a b = true <-> a = b.
Proof.
  revert b. induction a as [|x a IH]; intros [|y b]; cbn [DeepEqual];
    try (split; [discriminate|congruence]); try tauto.
  rewrite andb_true_iff, Z.eqb_eq, IH. split.
  - intros [-> ->]. reflexivity.
  - intros E. injection E as -> ->. tauto.
Qed.

Lemma DeepEqual_refl a : DeepEqual a a = true.
Proof. now apply DeepEqual_eq. Qed.

(** *** The shortcut of [Compare] *)

Lemma FormatInt_free z : free_of "." (strconv_FormatInt z) = true.
Proof.
  unfold free_of.
  destruct (Z.neg_nonneg_cases z) as [Hneg|Hpos].
  - destruct z as [|p|p]; try lia.
    unfold strconv_FormatInt. cbn [Z.to_int NilZero.string_of_int all_chars].
    cbn [negb Ascii.eqb Bool.eqb andb].
    apply (all_chars_weaken is_digit); [|apply (FormatInt_digits (Z.pos p)); lia].
    intros c Hc. destruct (Ascii.eqb_spec c "."); subst; [discriminate|reflexivity].
  - apply (all_chars_weaken is_digit); [|now apply FormatInt_digits].
    intros c Hc. destruct (Ascii.eqb_spec c "."); subst; [discriminate|reflexivity].
Qed.

Lemma concat_chars p sep l :
  all_chars p sep = true ->
  Forall (fun s => all_chars p s = true) l ->
  all_chars p (String.concat sep l) = true.
Proof.
  intros Hsep. induction 1 as [|x l Hx Hl IH]; [reflexivity|].
  destruct l as [|y l]; [exact Hx|].
  change (String.concat sep (x :: y :: l))
    with (x ++ sep ++ String.concat sep (y :: l))%string.
  now rewrite !all_chars_app, Hx, Hsep, IH.
Qed.

Lemma release_String c :
  release c ->
  Version_String c = String.concat "." (map strconv_FormatInt (segments c))
  /\ all_chars plain (Version_String c) = true.
Proof.
  intros (Hpre & Hmeta & _ & Hseg).
  assert (E : Version_String c
              = String.concat "." (map strconv_FormatInt (segments c))).
  { unfold Version_String. rewrite Hpre, Hmeta. cbn [String.eqb].
    now rewrite !append_empty_r. }
  split; [exact E|]. rewrite E. apply concat_chars; [reflexivity|].
  apply Forall_map. eapply Forall_impl; [|exact Hseg].
  intros z Hz. apply (all_chars_weaken is_digit); [|now apply FormatInt_digits].
  intros ch Hch. unfold plain. now rewrite Hch.
Qed.

Lemma concat_nonempty x l :
  String.concat "." (map strconv_FormatInt (x :: l)) <> EmptyString.
Proof.
  pose proof (FormatInt_nonempty x) as Hx. cbn [map String.concat].
  destruct (map strconv_FormatInt l); [exact Hx|].
  destruct (strconv_FormatInt x); [congruence|discriminate].
Qed.

Lemma map_FormatInt_inj a b :
  map strconv_FormatInt a = map strconv_FormatInt b -> a = b.
Proof.
  revert b. induction a as [|x a IH]; intros [|y b]; cbn [map];
    try discriminate; trivial.
  intros E. injection E as Hx Hl. f_equal; [now apply FormatInt_inj|auto].
Qed.

Lemma Split_concat_map l :
  l <> [] ->
  strings_Split (String.concat "." (map strconv_FormatInt l)) "."
  = map strconv_FormatInt l.
Proof.
  intros Hl. destruct l as [|x l]; [congruence|]. cbn [map].
  apply Split_concat. change (Forall (fun p => free_of "." p = true)
                                     (map strconv_FormatInt (x :: l))).
  apply Forall_map, Forall_forall. intros z _. apply FormatInt_free.
Qed.

(** Against a release, equal renderings mean equal segments and no
    pre-release: the shortcut returns what the comparison would. *)
Lemma String_eq_release v c :
  release c ->
  Version_String v = Version_String c ->
  segments v = segments c /\ pre v = EmptyString.
Proof.
  intros Hc E. destruct (release_String c Hc) as [Ec Hplain].
  destruct Hc as (_ & _ & Hne & _).
  rewrite <- E in Hplain. unfold Version_String in Hplain.
  rewrite !all_chars_app, !andb_true_iff in Hplain.
  destruct Hplain as (_ & Hp & Hm).
  destruct (String.eqb_spec (pre v) "") as [Hpre|_]; [|discriminate Hp].
  destruct (String.eqb_spec (metadata v) "") as [Hmeta|_]; [|discriminate Hm].
  split; [|exact Hpre].
  unfold Version_String in E at 1.
  rewrite Hpre, Hmeta in E. cbn [String.eqb] in E.
  rewrite !append_empty_r, Ec in E.
  destruct (segments c) as [|y lc]; [congruence|].
  destruct (segments v) as [|x lv].
  { symmetry in E. now apply concat_nonempty in E. }
  apply map_FormatInt_inj.
  rewrite <- (Split_concat_map (x :: lv)), <- (Split_concat_map (y :: lc))
    by discriminate.
  now rewrite E.
Qed.

(** [Compare] against a release: the segments decide, and on equal
    segments a pre-release sorts below the release. *)
Lemma Compare_release v c :
  release c ->
  Compare v c
  = if DeepEqual (segments v) (segments c)
    then (if String.eqb (pre v) "" then 0 else -1)%Z
    else compare_segments (segments v) (segments c).
Proof.
  intros Hc. unfold Compare, Segments64, Prerelease.
  destruct (String.eqb_spec (Version_String v) (Version_String c)) as [E|_].
  - destruct (String_eq_release v c Hc E) as [-> ->].
    now rewrite DeepEqual_refl.
  - destruct Hc as (-> & _). cbn [String.eqb].
    destruct (DeepEqual (segments v) (segments c)); trivial.
    destruct (String.eqb (pre v) ""); reflexivity.
Qed.

Lemma prereleaseCheck_release v c :
  release c -> prereleaseCheck v c = String.eqb (pre v) "".
Proof.
  intros (Hpre & _). unfold prereleaseCheck, Prerelease. rewrite Hpre.
  cbn [String.eqb negb andb]. now destruct (String.eqb (pre v) "").
Qed.
End VersionFacts.

Section ParsingFacts.
Import Go version.

Lemma numeric_plain s : all_chars plain (fst (numeric s)) = true.
Proof.
  induction s as [|c s IH]; [reflexivity|]. cbn [numeric].
  destruct (is_digit c) eqn:Hd.
  - destruct (numeric s) as [m r]. cbn [fst all_chars] in *.
    unfold plain at 1. now rewrite Hd, IH.
  - destruct (Ascii.eqb_spec c ".") as [->|_]; [|reflexivity].
    destruct s as [|d s']; [reflexivity|].
    destruct (is_digit d); [|reflexivity].
    destruct (numeric (String d s')) as [m r]. cbn [fst all_chars] in *.
    now rewrite IH.
Qed.

Lemma split_go_digits s cur :
  all_chars plain s = true ->
  all_chars is_digit cur = true ->
  Forall (fun p => all_chars is_digit p = true) (split_go "." s cur).
Proof.
  revert cur. induction s as [|c s IH]; intros cur Hs Hcur; cbn [split_go].
  - now constructor.
  - cbn [all_chars] in Hs. apply andb_true_iff in Hs as [Hc Hs].
    destruct (Ascii.eqb c ".") eqn:Hdot.
    + constructor; [exact Hcur|]. now apply IH.
    + apply IH; [exact Hs|]. rewrite all_chars_app, Hcur. cbn [all_chars].
      unfold plain in Hc. rewrite Hdot, orb_false_r in Hc. now rewrite Hc.
Qed.

Lemma digit_value_nonneg c : is_digit c = true -> (0 <= digit_value c)%Z.
Proof.
  unfold is_digit, digit_value. rewrite andb_true_iff, !Nat.leb_le. lia.
Qed.

Lemma parse_uint_nonneg s n z e :
  (0 <= n)%Z -> parse_uint s n = (z, e) -> (0 <= z)%Z.
Proof.
  revert n. induction s as [|c s IH]; intros n Hn; cbn [parse_uint].
  - intros E. injection E as <- _. exact Hn.
  - destruct (is_digit c) eqn:Hd; [|intros E; injection E as <- _; lia].
    destruct ((2 ^ 64 - 1) / 10 + 1 <=? n)%Z;
      [intros E; injection E as <- _; lia|].
    destruct (2 ^ 64 - 1 <? 10 * n + digit_value c)%Z;
      [intros E; injection E as <- _; lia|].
    apply IH. pose proof (digit_value_nonneg c Hd). lia.
Qed.

Lemma ParseInt_digits str z :
  all_chars is_digit str = true ->
  strconv_ParseInt str = (z, None) -> (0 <= z)%Z.
Proof.
  destruct str as [|c s]; [discriminate|].
  cbn [all_chars]. rewrite andb_true_iff. intros [Hc _].
  unfold strconv_ParseInt.
  destruct (Ascii.eqb_spec c "-") as [->|_]; [discriminate Hc|].
  destruct (Ascii.eqb_spec c "+") as [->|_]; [discriminate Hc|].
  cbn [orb negb andb]. unfold strconv_ParseUint.
  destruct (parse_uint (String c s) 0) as [un e] eqn:En.
  apply parse_uint_nonneg in En; [|lia].
  destruct e as [[|]|]; try discriminate;
    destruct (2 ^ 63 <=? un)%Z; try discriminate;
    intros E; injection E as <-; exact En.
Qed.

Lemma parse_segments_nonneg strs segs :
  Forall (fun p => all_chars is_digit p = true) strs ->
  parse_segments strs = Ok segs ->
  Forall (fun z => 0 <= z)%Z segs.
Proof.
  intros H. revert segs. induction H as [|str strs Hstr _ IH];
    intros segs; cbn [parse_segments].
  - intros E. injection E as <-. constructor.
  - destruct (strconv_ParseInt str) as [val [e|]] eqn:Ev; [discriminate|].
    destruct (parse_segments strs) as [vals|]; [|discriminate].
    intros E. injection E as <-. constructor; [|now apply IH].
    now apply (ParseInt_digits str).
Qed.

Lemma pad_parsed segs :
  Forall (fun z => 0 <= z)%Z segs ->
  3 <= List.length (pad segs) /\ Forall (fun z => 0 <= z)%Z (pad segs).
Proof.
  intros H. unfold pad. split.
  - rewrite length_app, repeat_length. lia.
  - apply Forall_app. split; [exact H|].
    apply Forall_forall. intros z Hz. apply repeat_spec in Hz. lia.
Qed.

Lemma versionRegexp_plain v m1 m4 m7 m10 :
  versionRegexp v = Some (m1, m4, m7, m10) -> all_chars plain m1 = true.
Proof.
  unfold versionRegexp.
  set (v' := match v with
             | EmptyString => v
             | String c r => if Ascii.eqb c "v" then r else v
             end).
  destruct v' as [|c r]; [discriminate|].
  destruct (is_digit c); [|discriminate].
  pose proof (numeric_plain (String c r)) as Hn.
  destruct (numeric (String c r)) as [m rest].
  destruct (cut "+" rest) as [p m'].
  destruct (prerelease_groups p) as [[g4 g7]|]; [|discriminate].
  destruct (metadata_group m'); [|discriminate].
  intros E. injection E as <- _ _ _. exact Hn.
Qed.

(** [NewVersion] yields at least three segments, none negative. *)
Lemma NewVersion_parsed s v : NewVersion s = Ok v -> parsed v.
Proof.
  unfold NewVersion.
  destruct (versionRegexp s) as [[[[m1 m4] m7] m10]|] eqn:Er; [|discriminate].
  destruct (parse_segments (strings_Split m1 ".")) as [segs|] eqn:Ep;
    [|discriminate].
  intros E. injection E as <-. unfold parsed. cbn [segments].
  apply pad_parsed. eapply parse_segments_nonneg; [|exact Ep].
  apply split_go_digits; [|reflexivity].
  eapply versionRegexp_plain, Er.
Qed.
End ParsingFacts.

(* ================================================================== *)
(** * The range table                                                   *)
(* ================================================================== *)

(** Settle the integer tests of the goal that arithmetic decides. *)
Ltac settle :=
  repeat match goal with
    | |- context [(?x <? ?y)%Z] =>
        first [ rewrite (proj2 (Z.ltb_lt x y)) by lia
              | rewrite (proj2 (Z.ltb_ge x y)) by lia ]
    | |- context [(?x <=? ?y)%Z] =>
        first [ rewrite (proj2 (Z.leb_le x y)) by lia
              | rewrite (proj2 (Z.leb_gt x y)) by lia ]
    | |- context [(?x =? ?y)%Z] =>
        first [ rewrite (proj2 (Z.eqb_eq x y)) by lia
              | rewrite (proj2 (Z.eqb_neq x y)) by lia ]
    end;
  cbn [andb orb negb].

(** Read the constraints of the table off their strings. *)
Ltac read_constraints :=
  repeat match goal with
    | |- context [version.NewConstraint ?s] =>
        let r := eval vm_compute in (version.NewConstraint s) in
        change (version.NewConstraint s) with r
    end.

(** One goal per entry of a list read by [nth_error]. *)
Ltac entries i Hi :=
  first
    [ discriminate Hi
    | destruct i as [|i]; cbn [nth_error] in Hi;
      [ first [ discriminate Hi | injection Hi as <- <- ]
      | entries i Hi ] ].

Section RangeFacts.
Import Go version.

Lemma parsed_shape v :
  parsed v ->
  exists a b d t,
    segments v = a :: b :: d :: t
    /\ (0 <= a)%Z /\ (0 <= b)%Z /\ (0 <= d)%Z
    /\ Forall (fun z => 0 <= z)%Z t.
Proof.
  intros [Hlen Hall].
  destruct (segments v) as [|a [|b [|d t]]]; cbn in Hlen; try lia.
  inversion Hall as [|? ? Ha Hall1]; subst.
  inversion Hall1 as [|? ? Hb Hall2]; subst.
  inversion Hall2 as [|? ? Hd Ht]; subst.
  now exists a, b, d, t.
Qed.

Lemma release_bound k n text :
  (0 <= k)%Z -> release (mkVersion "" "" [1; k; 0]%Z n text).
Proof.
  intros Hk. unfold release. cbn [pre metadata segments].
  repeat split; try discriminate. repeat constructor; lia.
Qed.

(** [Compare] of a parsed release against the bound 1.k. *)
Lemma Compare_bound v k n text a b d t :
  segments v = a :: b :: d :: t ->
  (0 <= d)%Z -> (0 <= k)%Z -> pre v = EmptyString ->
  Compare v (mkVersion "" "" [1; k; 0]%Z n text)
  = (if (a <? 1)%Z then -1
     else if (1 <? a)%Z then 1
     else if (b <? k)%Z then -1
     else if (k <? b)%Z then 1
     else if (d =? 0)%Z && allZero t then 0
     else 1)%Z.
Proof.
  intros Hs Hd Hk Hpre.
  rewrite Compare_release by now apply release_bound.
  rewrite Hpre. cbn [segments String.eqb]. rewrite Hs.
  cbn [DeepEqual compare_segments].
  destruct (Z.eqb_spec a 1) as [->|Ha]; cbn [andb].
  2:{ destruct (Z.ltb_spec a 1); settle; reflexivity. }
  destruct (Z.eqb_spec b k) as [->|Hb]; cbn [andb].
  2:{ destruct (Z.ltb_spec b k); settle; reflexivity. }
  destruct (Z.eqb_spec d 0) as [->|Hd0]; cbn [andb]; settle.
  - destruct t as [|z t]; [reflexivity|]. cbn [DeepEqual].
    reflexivity.
  - reflexivity.
Qed.

Section Bounds.
Variables (v : Version) (k : Z) (n : nat) (text : string).
Variables (a b d : Z) (t : list Z).
Hypothesis Hs : segments v = a :: b :: d :: t.
Hypothesis Hd : (0 <= d)%Z.
Hypothesis Hk : (0 <= k)%Z.

Let c := mkVersion "" "" [1; k; 0]%Z n text.

Lemma lt_bound :
  constraintLessThan v c
  = String.eqb (pre v) ""
    && ((a <? 1)%Z || ((a =? 1)%Z && (b <? k)%Z)).
Proof.
  unfold constraintLessThan.
  rewrite prereleaseCheck_release by now apply release_bound.
  destruct (String.eqb_spec (pre v) "") as [Hp|_]; [|reflexivity].
  subst c. rewrite (Compare_bound v k n text a b d t) by trivial.
  cbn [andb].
  destruct (Z.ltb_spec a 1); settle; [reflexivity|].
  destruct (Z.ltb_spec 1 a); settle; [reflexivity|].
  destruct (Z.ltb_spec b k); settle; [reflexivity|].
  destruct (Z.ltb_spec k b); settle; [reflexivity|].
  now destruct ((d =? 0)%Z && allZero t).
Qed.

Lemma ge_bound :
  constraintGreaterThanEqual v c
  = String.eqb (pre v) ""
    && ((1 <? a)%Z || ((a =? 1)%Z && (k <=? b)%Z)).
Proof.
  unfold constraintGreaterThanEqual.
  rewrite prereleaseCheck_release by now apply release_bound.
  destruct (String.eqb_spec (pre v) "") as [Hp|_]; [|reflexivity].
  subst c. rewrite (Compare_bound v k n text a b d t) by trivial.
  cbn [andb].
  destruct (Z.ltb_spec a 1); settle; [reflexivity|].
  destruct (Z.ltb_spec 1 a); settle; [reflexivity|].
  destruct (Z.ltb_spec b k); settle; [reflexivity|].
  destruct (Z.ltb_spec k b); settle; [reflexivity|].
  now destruct ((d =? 0)%Z && allZero t).
Qed.

Lemma le_bound :
  constraintLessThanEqual v c
  = String.eqb (pre v) ""
    && ((a <? 1)%Z
        || ((a =? 1)%Z
            && ((b <? k)%Z
                || ((b =? k)%Z && ((d =? 0)%Z && allZero t))))).
Proof.
  unfold constraintLessThanEqual.
  rewrite prereleaseCheck_release by now apply release_bound.
  destruct (String.eqb_spec (pre v) "") as [Hp|_]; [|reflexivity].
  subst c. rewrite (Compare_bound v k n text a b d t) by trivial.
  cbn [andb].
  destruct (Z.ltb_spec a 1); settle; [reflexivity|].
  destruct (Z.ltb_spec 1 a); settle; [reflexivity|].
  destruct (Z.ltb_spec b k); settle; [reflexivity|].
  destruct (Z.ltb_spec k b); settle; [reflexivity|].
  now destruct ((d =? 0)%Z && allZero t).
Qed.
End Bounds.

(** The loop over the table, for a parsed version: the entry [entry_of]
    names, or no entry. *)
Lemma range_loop_entry g v :
  parsed v ->
  range_loop v (platforms g)
  = match entry_of v with
    | Some i => Matched (snapshot_at g i)
    | None => Exhausted
    end.
Proof.
  intros Hv.
  destruct (parsed_shape v Hv) as (a & b & d & t & Hs & Ha & Hb & Hd & Ht).
  unfold platforms. cbn [range_loop]. read_constraints.
  cbn [Constraints_Check Constraint_Check constraintFunc f check].
  rewrite !(ge_bound v _ _ _ a b d t Hs Hd) by lia.
  rewrite !(lt_bound v _ _ _ a b d t Hs Hd) by lia.
  rewrite !(le_bound v _ _ _ a b d t Hs Hd) by lia.
  unfold entry_of, snapshot_at. rewrite Hs.
  destruct (String.eqb (pre v) ""); cbn [negb andb]; [|reflexivity].
  destruct (Z.lt_total a 1) as [Ha1|[->|Ha1]].
  - settle. reflexivity.
  - assert (Hcases : (b = 0 \/ 1 <= b < 3 \/ b = 3 \/ b = 4 \/ b = 5
                      \/ b = 6 \/ b = 7 \/ b = 8 \/ b = 9 \/ b = 10
                      \/ b = 11 \/ b = 12 \/ 13 <= b)%Z) by lia.
    unfold allZero. cbn [forallb].
    repeat (destruct Hcases as [Hb'|Hcases]);
      try (settle; reflexivity).
    subst b.
    destruct (Z.eqb_spec d 0) as [->|Hd0]; settle;
      [destruct (forallb (Z.eqb 0) t)|]; reflexivity.
  - settle. reflexivity.
Qed.
End RangeFacts.

(* ================================================================== *)
(** * SupportedPlatforms                                                *)
(* ================================================================== *)

Section ResolverFacts.
Import Go version.

Lemma Platform_eqb_eq p q : Platform_eqb p q = true <-> p = q.
Proof.
  destruct p as [o a d], q as [o' a' d']. unfold Platform_eqb.
  cbn [OS Arch Default].
  rewrite !andb_true_iff, !String.eqb_eq, Bool.eqb_true_iff.
  split; [intros [[-> ->] ->]; reflexivity|].
  intros E. injection E as -> -> ->. tauto.
Qed.

Lemma has_In l p : has l p = true <-> In p l.
Proof.
  unfold has. rewrite existsb_exists. split.
  - intros (q & Hq & E). apply Platform_eqb_eq in E. now subst.
  - intros H. exists p. split; [exact H|]. now apply Platform_eqb_eq.
Qed.

Lemma has_not_In l p : has l p = false -> ~ In p l.
Proof. intros H Hin. apply has_In in Hin. congruence. Qed.

Lemma forallb_has_incl l1 l2 :
  forallb (has l2) l1 = true -> incl l1 l2.
Proof.
  rewrite forallb_forall. intros H p Hp. apply has_In. auto.
Qed.

(** A call on ["go" ++ r] reads the version off [r]. *)
Lemma SupportedPlatforms_go g r :
  SupportedPlatforms g ("go" ++ r)
  = match NewVersion r with
    | Err err =>
        mkCall [("Unable to parse current go version: " ++ r
                   ++ newline ++ Error err)%string]
               (Returns (PlatformsLatest g))
    | Ok current =>
        match range_loop current (platforms g) with
        | Matched plat => mkCall [] (Returns plat)
        | Panicked err => mkCall [] (Panics err)
        | Exhausted => mkCall [] (Returns (Platforms_1_12 g))
        end
    end.
Proof. reflexivity. Qed.

(** What a call on a parsed version returns. *)
Lemma SupportedPlatforms_parsed g r v :
  NewVersion r = Ok v ->
  SupportedPlatforms g ("go" ++ r)
  = mkCall [] (Returns match entry_of v with
                       | Some i => snapshot_at g i
                       | None => Platforms_1_12 g
                       end).
Proof.
  intros E. rewrite SupportedPlatforms_go, E.
  rewrite range_loop_entry by (eapply NewVersion_parsed, E).
  now destruct (entry_of v).
Qed.

(** Every string either lacks the prefix or is ["go" ++ r]. *)
Lemma HasPrefix_go s :
  strings_HasPrefix s "go" = true -> s = ("go" ++ string_from 2 s)%string.
Proof.
  destruct s as [|c1 [|c2 s]]; cbn [strings_HasPrefix]; try discriminate.
  - now rewrite andb_false_r.
  - destruct (Ascii.eqb_spec c1 "g") as [->|]; [|discriminate].
    destruct (Ascii.eqb_spec c2 "o") as [->|]; [|discriminate].
    reflexivity.
Qed.

(** The call returns a slice on every input. *)
Lemma SupportedPlatforms_returns g s :
  exists plat, outcome (SupportedPlatforms g s) = Returns plat.
Proof.
  destruct (strings_HasPrefix s "go") eqn:Hp.
  - rewrite (HasPrefix_go s Hp).
    destruct (NewVersion (string_from 2 s)) as [v|e] eqn:E.
    + rewrite (SupportedPlatforms_parsed g _ v E). eexists; reflexivity.
    + rewrite SupportedPlatforms_go, E. eexists; reflexivity.
  - unfold SupportedPlatforms. rewrite Hp. eexists; reflexivity.
Qed.

(** An entry of the table is satisfied exactly by the versions
    [entry_of] sends to it: the ranges do not overlap. *)
Lemma in_range_entry g i c p v :
  nth_error (platforms g) i = Some (c, p) ->
  parsed v ->
  in_range c v = match entry_of v with
                 | Some j => Nat.eqb j i
                 | None => false
                 end.
Proof.
  intros Hi Hv.
  destruct (parsed_shape v Hv) as (a & b & d & t & Hs & Ha & Hb & Hd & Ht).
  unfold platforms in Hi.
  entries i Hi.
  all: unfold in_range; read_constraints;
    cbn [Constraints_Check Constraint_Check constraintFunc f check];
    rewrite ?(ge_bound v _ _ _ a b d t Hs Hd) by lia;
    rewrite ?(lt_bound v _ _ _ a b d t Hs Hd) by lia;
    rewrite ?(le_bound v _ _ _ a b d t Hs Hd) by lia;
    unfold entry_of; rewrite Hs;
    (destruct (String.eqb (pre v) ""); cbn [negb andb]; [|reflexivity]);
    (destruct (Z.lt_total a 1) as [Ha1|[->|Ha1]];
     [ settle; reflexivity | | settle; reflexivity ]);
    assert (Hcases : (b = 0 \/ 1 <= b < 3 \/ b = 3 \/ b = 4 \/ b = 5
                      \/ b = 6 \/ b = 7 \/ b = 8 \/ b = 9 \/ b = 10
                      \/ b = 11 \/ b = 12 \/ 13 <= b)%Z) by lia;
    unfold allZero; cbn [forallb];
    repeat (destruct Hcases as [Hb'|Hcases]);
    try (settle; reflexivity);
    subst b;
    (destruct (Z.eqb_spec d 0) as [->|Hd0]; settle;
     [destruct (forallb (Z.eqb 0) t)|]; reflexivity).
Qed.
End ResolverFacts.

(* ================================================================== *)
(** * Facts about the methods, the table and the snapshots              *)
(* ================================================================== *)

Lemma map_index_missing (m : Go.map_literal) (k : string) :
  ~ In k (map fst m) -> Go.map_index m k = EmptyString.
Proof.
  induction m as [|[k' v] m IH]; cbn [Go.map_index map fst In]; trivial.
  intros H. destruct (String.eqb_spec k' k) as [->|_]; [tauto|].
  apply IH. tauto.
Qed.

Section TableFacts.
Import Go version.

Lemma entry_of_bound v i : entry_of v = Some i -> i < 12.
Proof.
  unfold entry_of.
  destruct (negb (String.eqb (pre v) "")); [discriminate|].
  destruct (segments v) as [|a [|b rest]]; try discriminate.
  repeat match goal with
         | |- context [if ?c then _ else _] => destruct c
         end;
    intros E; inversion E; lia.
Qed.

(** A parsed version is within the table exactly when [entry_of] names
    an entry for it. *)
Lemma within_table_entry g v :
  parsed v ->
  within_table g v = match entry_of v with
                     | Some _ => true
                     | None => false
                     end.
Proof.
  intros Hv. unfold within_table.
  assert (H : forall i c p, nth_error (platforms g) i = Some (c, p) ->
                            in_range c v
                            = match entry_of v with
                              | Some j => Nat.eqb j i
                              | None => false
                              end)
    by (intros; eapply in_range_entry; eassumption).
  unfold platforms in *. cbn [existsb fst].
  rewrite (H 0 _ _ eq_refl), (H 1 _ _ eq_refl), (H 2 _ _ eq_refl),
    (H 3 _ _ eq_refl), (H 4 _ _ eq_refl), (H 5 _ _ eq_refl),
    (H 6 _ _ eq_refl), (H 7 _ _ eq_refl), (H 8 _ _ eq_refl),
    (H 9 _ _ eq_refl), (H 10 _ _ eq_refl), (H 11 _ _ eq_refl).
  destruct (entry_of v) as [j|] eqn:E; [|reflexivity].
  apply entry_of_bound in E.
  do 12 (destruct j as [|j]; [reflexivity|]). lia.
Qed.

(** The snapshot a parsed version within the table resolves to is the
    one of the entry it satisfies. *)
Lemma range_loop_matched g v i :
  parsed v -> entry_of v = Some i ->
  exists c p, nth_error (platforms g) i = Some (c, p)
              /\ in_range c v = true
              /\ range_loop v (platforms g) = Matched p
              /\ p = snapshot_at g i.
Proof.
  intros Hv E. pose proof (entry_of_bound v i E) as Hi.
  destruct (nth_error (platforms g) i) as [[c p]|] eqn:En.
  2:{ apply nth_error_None in En. cbn in En. lia. }
  exists c, p. split; [reflexivity|].
  rewrite (in_range_entry g i c p v En Hv), E, Nat.eqb_refl.
  rewrite (range_loop_entry g v Hv), E.
  assert (p = snapshot_at g i) as ->; [|now repeat split].
  unfold snapshot_at.
  erewrite nth_error_nth; [reflexivity|].
  rewrite nth_error_map, En. reflexivity.
Qed.

(** At or above 1.13 (a release: without pre-release), no entry. *)
Lemma entry_of_above v :
  parsed v -> in_range ">= 1.13" v = true -> entry_of v = None.
Proof.
  intros Hv.
  destruct (parsed_shape v Hv) as (a & b & d & t & Hs & Ha & Hb & Hd & Ht).
  unfold in_range. read_constraints.
  cbn [Constraints_Check Constraint_Check constraintFunc f check].
  rewrite (ge_bound v _ _ _ a b d t Hs Hd) by lia.
  unfold entry_of. rewrite Hs.
  destruct (String.eqb (pre v) ""); cbn [negb andb]; [|reflexivity].
  destruct (Z.lt_total a 1) as [Ha1|[->|Ha1]]; settle;
    try discriminate; try reflexivity.
  destruct (Z.leb_spec 13 b); [|discriminate]. settle. reflexivity.
Qed.

(** Up to 1.0, and from 1.1 up to 1.13 excluded, some entry. *)
Lemma entry_of_below v :
  parsed v ->
  in_range "<= 1.0" v = true \/ in_range ">= 1.1, < 1.13" v = true ->
  exists i, entry_of v = Some i.
Proof.
  intros Hv.
  destruct (parsed_shape v Hv) as (a & b & d & t & Hs & Ha & Hb & Hd & Ht).
  unfold in_range. read_constraints.
  cbn [Constraints_Check Constraint_Check constraintFunc f check].
  rewrite (ge_bound v _ _ _ a b d t Hs Hd) by lia.
  rewrite (lt_bound v _ _ _ a b d t Hs Hd) by lia.
  rewrite (le_bound v _ _ _ a b d t Hs Hd) by lia.
  unfold entry_of. rewrite Hs.
  destruct (String.eqb (pre v) ""); cbn [negb andb];
    [|intros [H|H]; discriminate H].
  destruct (Z.lt_total a 1) as [Ha1|[->|Ha1]]; settle;
    [eauto| |intros [H|H]; discriminate H].
  assert (Hcases : (b = 0 \/ 1 <= b < 3 \/ b = 3 \/ b = 4 \/ b = 5
                    \/ b = 6 \/ b = 7 \/ b = 8 \/ b = 9 \/ b = 10
                    \/ b = 11 \/ b = 12 \/ 13 <= b)%Z) by lia.
  unfold allZero. cbn [forallb].
  repeat (destruct Hcases as [Hb'|Hcases]);
    try (settle; eauto; intros [H|H]; discriminate H).
  subst b. settle.
  destruct ((0 =? d)%Z && forallb (Z.eqb 0) t) eqn:Ez; [eauto|].
  intros [H|H]; [|discriminate H].
  destruct (Z.eqb_spec d 0) as [->|Hd0]; [|discriminate H].
  change (0 =? 0)%Z with true in Ez. cbn [andb] in Ez, H.
  rewrite Ez in H. discriminate H.
Qed.
End TableFacts.

Section Monotonicity.
Import Go version.

Lemma step_mono b1 b2 : (b1 <= b2)%Z -> step b1 <= step b2.
Proof.
  intros H. unfold step.
  repeat match goal with
         | |- context [if (?x <? ?y)%Z then _ else _] =>
             destruct (Z.ltb_spec x y)
         end; lia.
Qed.

Lemma entry_of_step v a b rest i :
  segments v = a :: b :: rest -> (0 <= b)%Z ->
  entry_of v = Some i ->
  pre v = EmptyString /\ (a <= 1)%Z
  /\ i = if (a <? 1)%Z then 0 else step b.
Proof.
  intros Hs Hb. unfold entry_of, step. rewrite Hs.
  destruct (String.eqb_spec (pre v) "") as [Hp|_]; [|discriminate].
  cbn [negb].
  repeat match goal with
         | |- context [if (?x <? ?y)%Z then _ else _] =>
             destruct (Z.ltb_spec x y)
         | |- context [if (?x =? ?y)%Z then _ else _] =>
             destruct (Z.eqb_spec x y)
         | |- context [if allZero ?l then _ else _] =>
             destruct (allZero l)
         end;
    intros E; inversion E; repeat split; trivial; lia.
Qed.

(** [Compare] says "less" only when the first two segments are not
    greater. *)
Lemma Compare_less v1 v2 a1 b1 r1 a2 b2 r2 :
  segments v1 = a1 :: b1 :: r1 ->
  segments v2 = a2 :: b2 :: r2 ->
  pre v1 = EmptyString -> pre v2 = EmptyString ->
  Compare v1 v2 = (-1)%Z ->
  (a1 < a2 \/ (a1 = a2 /\ b1 <= b2))%Z.
Proof.
  intros H1 H2 P1 P2. unfold Compare, Segments64, Prerelease.
  destruct (String.eqb (Version_String v1) (Version_String v2));
    [discriminate|].
  rewrite H1, H2, P1, P2. cbn [String.eqb andb].
  destruct (DeepEqual (a1 :: b1 :: r1) (a2 :: b2 :: r2)); [discriminate|].
  cbn [compare_segments].
  destruct (Z.eqb_spec a1 a2); [|destruct (Z.ltb_spec a1 a2); [lia|discriminate]].
  destruct (Z.eqb_spec b1 b2); [lia|].
  destruct (Z.ltb_spec b1 b2); [lia|discriminate].
Qed.

(** Of two parsed versions within the table, the lesser lands in an
    entry that is not later. *)
Lemma entry_of_mono v1 v2 i j :
  parsed v1 -> parsed v2 ->
  entry_of v1 = Some i -> entry_of v2 = Some j ->
  Compare v1 v2 = (-1)%Z -> i <= j.
Proof.
  intros P1 P2 E1 E2 Hlt.
  destruct (parsed_shape v1 P1) as (a1 & b1 & d1 & t1 & S1 & _ & Hb1 & _).
  destruct (parsed_shape v2 P2) as (a2 & b2 & d2 & t2 & S2 & _ & Hb2 & _).
  destruct (entry_of_step v1 a1 b1 _ i S1 Hb1 E1) as (Q1 & A1 & ->).
  destruct (entry_of_step v2 a2 b2 _ j S2 Hb2 E2) as (Q2 & A2 & ->).
  pose proof (Compare_less v1 v2 _ _ _ _ _ _ S1 S2 Q1 Q2 Hlt) as K.
  destruct (Z.ltb_spec a1 1); [lia|].
  destruct (Z.ltb_spec a2 1); [lia|].
  apply step_mono. lia.
Qed.

Lemma defs_grow_true : defs_grow = true.
Proof. vm_compute. reflexivity. Qed.

Lemma defs_incl i j :
  i <= j -> j < 12 -> i <> 5 -> j <> 5 ->
  incl (nth i defs []) (nth j defs []).
Proof.
  intros Hij Hj Hi5 Hj5. apply forallb_has_incl.
  pose proof defs_grow_true as H. unfold defs_grow in H.
  rewrite forallb_forall in H.
  specialize (H i ltac:(apply in_seq; lia)).
  rewrite forallb_forall in H.
  specialize (H j ltac:(apply in_seq; lia)).
  rewrite (proj2 (Nat.leb_le i j) Hij) in H.
  rewrite (proj2 (Nat.eqb_neq i 5) Hi5) in H.
  rewrite (proj2 (Nat.eqb_neq j 5) Hj5) in H.
  exact H.
Qed.

(** What the snapshot of an entry other than 1.6 denotes. *)
Lemma snapshot_contents g i :
  initialised g -> i < 12 -> i <> 5 ->
  contents g (snapshot_at g i) = nth i defs [].
Proof.
  intros (H0 & H1 & H3 & H4 & H5 & _ & H7 & H8 & H9 & H11 & H12 & H10 & _)
         Hi Hi5.
  unfold snapshot_at, platforms. cbn [map snd].
  destruct i as [|[|[|[|[|[|[|[|[|[|[|[|i]]]]]]]]]]]]; cbn [nth];
    try assumption; try lia.
  rewrite H10. exact H9.
Qed.

(** The 1.6 snapshot holds at least what the 1.5 snapshot holds. *)
Lemma snapshot_1_6_extends g :
  initialised g -> incl def_1_5 (contents g (snapshot_at g 5)).
Proof.
  intros (_ & _ & _ & _ & _ & (_ & H6) & _).
  change (snapshot_at g 5) with (Platforms_1_6 g).
  rewrite <- H6. intros p Hp.
  rewrite <- (firstn_skipn 29 (contents g (Platforms_1_6 g))).
  apply in_or_app. now left.
Qed.
End Monotonicity.

(** The 1.6 snapshot once the 1.7 initialiser has written over it. *)
Lemma overwritten_1_6_incl j :
  6 <= j -> j < 12 ->
  incl (def_1_5 ++ firstn 3 add_1_7) (nth j defs []).
Proof.
  intros H6 Hj. apply incl_tran with (m := nth 6 defs []).
  - apply forallb_has_incl. vm_compute. reflexivity.
  - apply defs_incl; lia.
Qed.

(* ================================================================== *)
(** * The model on concrete inputs                                      *)
(* ================================================================== *)

Example NewVersion_1_9_2 :
  version.NewVersion "1.9.2"
  = Go.Ok (version.mkVersion "" "" [1; 9; 2]%Z 3 "1.9.2").
Proof. reflexivity. Qed.

Example NewVersion_pads_to_three_segments :
  version.NewVersion "v2"
  = Go.Ok (version.mkVersion "" "" [2; 0; 0]%Z 1 "v2").
Proof. reflexivity. Qed.

Example NewVersion_reads_a_prerelease :
  version.NewVersion "1.5beta1"
  = Go.Ok (version.mkVersion "" "beta1" [1; 5; 0]%Z 2 "1.5beta1")
  /\ version.NewVersion "1.13-rc.1+build.7"
     = Go.Ok (version.mkVersion "build.7" "rc.1" [1; 13; 0]%Z 2
                                "1.13-rc.1+build.7").
Proof. split; reflexivity. Qed.

Example NewVersion_rejects :
  version.NewVersion "1..2" = Go.Err (version.MalformedVersion "1..2")
  /\ version.NewVersion "" = Go.Err (version.MalformedVersion "")
  /\ version.NewVersion "99999999999999999999"
     = Go.Err (version.ErrorParsingVersion "99999999999999999999" Go.ErrRange).
Proof. repeat split; vm_compute; reflexivity. Qed.

Example Compare_is_numeric :
  forall a b,
    version.NewVersion "1.10" = Go.Ok a ->
    version.NewVersion "1.9.7" = Go.Ok b ->
    version.Compare a b = 1%Z /\ version.Compare b a = (-1)%Z
    /\ version.Compare a a = 0%Z.
Proof.
  intros a b Ea Eb. injection Ea as <-. injection Eb as <-.
  repeat split; vm_compute; reflexivity.
Qed.

Example NewConstraint_of_an_entry :
  version.NewConstraint ">=1.10, < 1.11"
  = Go.Ok [ version.mkConstraint version.opGreaterThanEqual
              (version.mkVersion "" "" [1; 10; 0]%Z 2 "1.10") ">=1.10";
            version.mkConstraint version.opLessThan
              (version.mkVersion "" "" [1; 11; 0]%Z 2 "1.11") " < 1.11" ].
Proof. vm_compute. reflexivity. Qed.

(** [SupportedPlatforms("go1.12.5")] is the latest snapshot, with
    aix/ppc64 in it. *)
Example go1_12_5_is_the_latest_snapshot :
  outcome (SupportedPlatforms gc "go1.12.5") = Returns (PlatformsLatest gc)
  /\ has (contents gc (PlatformsLatest gc)) (mkPlatform "aix" "ppc64" true)
     = true.
Proof. split; vm_compute; reflexivity. Qed.

(** Between the first entry ([<= 1.0]) and the second ([>= 1.1]) lie the
    patch releases of 1.0; and no entry takes a version with a
    pre-release.  Both are sent to the fallback. *)
Example go1_0_1_and_go1_5beta1_fall_through :
  outcome (SupportedPlatforms gc "go1.0") = Returns (Platforms_1_0 gc)
  /\ outcome (SupportedPlatforms gc "go1.0.1") = Returns (Platforms_1_12 gc)
  /\ outcome (SupportedPlatforms gc "go1.5beta1") = Returns (Platforms_1_12 gc).
Proof. repeat split; vm_compute; reflexivity. Qed.

(** A remainder that does not parse is reported to the log. *)
Example unparsable_version_is_logged :
  logged (SupportedPlatforms gc "gopher")
  = [ ("Unable to parse current go version: pher" ++ version.newline
         ++ "Malformed version: pher")%string ]
  /\ logged (SupportedPlatforms gc "go1.9.2") = []
  /\ logged (SupportedPlatforms gc "1.9.2") = [].
Proof. repeat split; vm_compute; reflexivity. Qed.

(* ================================================================== *)
(** * The claims                                                        *)
(* ================================================================== *)

(** C1, as the code has it.  For every input that begins with ["go"] and
    whose remainder parses as a version [v]: when [v] satisfies an entry
    of the ordered range table, the loop returns that entry's snapshot,
    and this is so for every release up to 1.0 and from 1.1 up to, but
    excluding, 1.13.  The upper bound of the last entry is not open-ended:
    it is [< 1.13], so for every release at or above 1.13 no entry
    matches, the loop runs past the table and the fallback of line 220
    returns [Platforms_1_12], which is also the latest snapshot. *)
Theorem range_table_ends_at_1_13 (growcap : nat -> nat -> nat)
        (s : string) (v : version.Version) :
  version.NewVersion s = Go.Ok v ->
  (within_table (init growcap) v = true ->
   exists i c p,
     nth_error (platforms (init growcap)) i = Some (c, p)
     /\ in_range c v = true
     /\ range_loop v (platforms (init growcap)) = Matched p
     /\ outcome (SupportedPlatforms (init growcap) ("go" ++ s)) = Returns p)
  /\ (in_range "<= 1.0" v = true \/ in_range ">= 1.1, < 1.13" v = true ->
      within_table (init growcap) v = true)
  /\ (in_range ">= 1.13" v = true ->
      within_table (init growcap) v = false
      /\ range_loop v (platforms (init growcap)) = Exhausted
      /\ outcome (SupportedPlatforms (init growcap) ("go" ++ s))
         = Returns (Platforms_1_12 (init growcap))
      /\ Platforms_1_12 (init growcap) = PlatformsLatest (init growcap)).
Proof.
  intros Es. pose proof (NewVersion_parsed s v Es) as Pv.
  rewrite (within_table_entry _ v Pv).
  rewrite (SupportedPlatforms_parsed _ s v Es).
  rewrite (range_loop_entry _ v Pv).
  split; [|split].
  - destruct (entry_of v) as [i|] eqn:Ev; [intros _|discriminate].
    destruct (range_loop_matched (init growcap) v i Pv Ev)
      as (c & p & Hn & Hin & _ & ->).
    exists i, c, (snapshot_at (init growcap) i). now repeat split.
  - intros H. destruct (entry_of_below v Pv H) as [i ->]. reflexivity.
  - intros H. rewrite (entry_of_above v Pv H).
    destruct (init_initialised growcap)
      as (_ & _ & _ & _ & _ & _ & _ & _ & _ & _ & _ & _ & Hlatest).
    now repeat split.
Qed.

Lemma range_table_ends_at_1_13_witness :
  range_loop (version.mkVersion "" "" [1; 13; 0]%Z 2 "1.13") (platforms gc)
  = Exhausted
  /\ outcome (SupportedPlatforms gc "go1.13") = Returns (Platforms_1_12 gc).
Proof.
  destruct (range_table_ends_at_1_13 gc_growcap "1.13" _ eq_refl)
    as (_ & _ & H).
  destruct (H eq_refl) as (_ & Hloop & Hout & _).
  split; [exact Hloop|exact Hout].
Defined.

(** C1, as the specification states it, fails: ["go1.13"] begins with
    ["go"], its remainder parses as a version, and no entry of the range
    table matches it, the last one included; the loop falls through. *)
Lemma go1_13_matches_no_entry :
  Go.strings_HasPrefix "go1.13" "go" = true
  /\ version.NewVersion "1.13"
     = Go.Ok (version.mkVersion "" "" [1; 13; 0]%Z 2 "1.13")
  /\ forallb (fun e => negb (in_range (fst e)
                (version.mkVersion "" "" [1; 13; 0]%Z 2 "1.13")))
             (platforms gc) = true
  /\ in_range ">=1.12, < 1.13"
              (version.mkVersion "" "" [1; 13; 0]%Z 2 "1.13") = false
  /\ range_loop (version.mkVersion "" "" [1; 13; 0]%Z 2 "1.13")
                (platforms gc) = Exhausted.
Proof. repeat split; vm_compute; reflexivity. Qed.

(** C2 does not hold.  On every growth policy the snapshots 1.0 to 1.7
    hold each (OS, Arch) pair once, the snapshots 1.8 to 1.12 do not.  In
    [Platforms_1_8] the pair linux/arm64 is at index 26 (from 1.5, not a
    default) and at index 36 (added by 1.8, a default); [Platforms_1_9]
    holds the very entry freebsd/arm twice, at indices 11 and 40. *)
Theorem snapshots_repeat_targets (growcap : nat -> nat -> nat) :
  let g := init growcap in
  (unique_targets (contents g (Platforms_1_0 g)) = true
   /\ unique_targets (contents g (Platforms_1_1 g)) = true
   /\ unique_targets (contents g (Platforms_1_3 g)) = true
   /\ unique_targets (contents g (Platforms_1_4 g)) = true
   /\ unique_targets (contents g (Platforms_1_5 g)) = true
   /\ unique_targets (contents g (Platforms_1_6 g)) = true
   /\ unique_targets (contents g (Platforms_1_7 g)) = true)
  /\ (unique_targets (contents g (Platforms_1_8 g)) = false
      /\ unique_targets (contents g (Platforms_1_9 g)) = false
      /\ unique_targets (contents g (Platforms_1_10 g)) = false
      /\ unique_targets (contents g (Platforms_1_11 g)) = false
      /\ unique_targets (contents g (Platforms_1_12 g)) = false)
  /\ (nth_error (contents g (Platforms_1_8 g)) 26
      = Some (mkPlatform "linux" "arm64" false)
      /\ nth_error (contents g (Platforms_1_8 g)) 36
         = Some (mkPlatform "linux" "arm64" true))
  /\ (nth_error (contents g (Platforms_1_9 g)) 11
      = Some (mkPlatform "freebsd" "arm" true)
      /\ nth_error (contents g (Platforms_1_9 g)) 40
         = Some (mkPlatform "freebsd" "arm" true))
  /\ outcome (SupportedPlatforms g "go1.8") = Returns (Platforms_1_8 g).
Proof.
  intros g. subst g.
  destruct (init_initialised growcap)
    as (H0 & H1 & H3 & H4 & H5 & _ & H7 & H8 & H9 & H11 & H12 & H10 & _).
  assert (H6 : unique_targets
                 (contents (init growcap) (Platforms_1_6 (init growcap)))
               = true).
  { destruct (init_1_6 growcap) as [Hover Hkept].
    destruct (Nat.le_gt_cases 34 (Go.cap (Platforms_1_5 (init growcap))))
      as [Hc|Hc]; [rewrite (Hover Hc)|rewrite (Hkept Hc)];
      vm_compute; reflexivity. }
  rewrite H6, H10, H0, H1, H3, H4, H5, H7, H8, H9, H11, H12.
  assert (Hgo : forall g, outcome (SupportedPlatforms g "go1.8")
                          = Returns (Platforms_1_8 g))
    by (intros g; vm_compute; reflexivity).
  rewrite Hgo. repeat split; vm_compute; reflexivity.
Qed.

(** C3 does not hold.  For every growth policy, the 1.6 snapshot denotes
    what its initialiser reads as only if the array of [Platforms_1_5] has
    no room for the five values of the 1.7 initialiser; otherwise that
    initialiser writes over the three cells [Platforms_1_6] had just
    received.  On the gc toolchain the array has capacity 44 (with 8-byte
    and with 4-byte words alike): after initialisation the 1.6 snapshot,
    which [SupportedPlatforms("go1.6")] returns, is the 1.5 snapshot
    followed by linux/s390x, plan9/arm and android/386; linux/mips64 and
    linux/mips64le, which its initialiser names, are not in it. *)
Theorem Platforms_1_6_is_overwritten :
  (forall growcap : nat -> nat -> nat,
      (34 <= Go.cap (Platforms_1_5 (init growcap)) ->
       contents (init growcap) (Platforms_1_6 (init growcap))
       = def_1_5 ++ firstn 3 add_1_7)
      /\ (Go.cap (Platforms_1_5 (init growcap)) < 34 ->
          contents (init growcap) (Platforms_1_6 (init growcap)) = def_1_6))
  /\ Platforms_1_5 gc = Go.mkSlice 2 29 44
  /\ Platforms_1_6 gc = Go.mkSlice 2 32 44
  /\ Platforms_1_7 gc = Go.mkSlice 2 34 44
  /\ outcome (SupportedPlatforms gc "go1.6") = Returns (Platforms_1_6 gc)
  /\ contents gc (Platforms_1_6 gc)
     = def_1_5 ++ [ mkPlatform "linux" "s390x" true;
                    mkPlatform "plan9" "arm" false;
                    mkPlatform "android" "386" false ]
  /\ def_1_6
     = def_1_5 ++ [ mkPlatform "android" "386" false;
                    mkPlatform "linux" "mips64" false;
                    mkPlatform "linux" "mips64le" false ]
  /\ has (contents gc (Platforms_1_6 gc))
         (mkPlatform "linux" "mips64" false) = false
  /\ has (contents gc (Platforms_1_6 gc))
         (mkPlatform "linux" "mips64le" false) = false
  /\ Platforms_1_5 gc32 = Go.mkSlice 2 29 44
  /\ contents gc32 (Platforms_1_6 gc32) = contents gc (Platforms_1_6 gc).
Proof.
  split; [exact init_1_6|].
  repeat split; vm_compute; reflexivity.
Qed.

(** C4. For all versions [v1 < v2] that each fall within a range of the
    table, every platform of the list returned for [v1] is in the list
    returned for [v2], except across the correction the 1.7 snapshot makes
    to the 1.6 one, that is unless [v1] is in [[1.6, 1.7)] and [v2] is past
    it; for every growth policy of [append].  (Where the array of
    [Platforms_1_5] has room for the 1.7 values, as on the gc toolchain,
    the exception is not even needed: the 1.6 snapshot has been overwritten
    with entries of the 1.7 one.) *)
Theorem later_versions_keep_platforms (growcap : nat -> nat -> nat)
        (s1 s2 : string) (v1 v2 : version.Version) (plat1 plat2 : Go.Slice) :
  version.NewVersion s1 = Go.Ok v1 ->
  version.NewVersion s2 = Go.Ok v2 ->
  within_table (init growcap) v1 = true ->
  within_table (init growcap) v2 = true ->
  version.Compare v1 v2 = (-1)%Z ->
  outcome (SupportedPlatforms (init growcap) ("go" ++ s1)) = Returns plat1 ->
  outcome (SupportedPlatforms (init growcap) ("go" ++ s2)) = Returns plat2 ->
  ((in_range ">= 1.6, < 1.7" v1 = true -> in_range ">= 1.6, < 1.7" v2 = true) ->
   incl (contents (init growcap) plat1) (contents (init growcap) plat2))
  /\ (34 <= Go.cap (Platforms_1_5 (init growcap)) ->
      incl (contents (init growcap) plat1) (contents (init growcap) plat2)).
Proof.
  intros E1 E2 W1 W2 Hlt R1 R2.
  pose proof (init_initialised growcap) as Hinit.
  pose proof (NewVersion_parsed s1 v1 E1) as P1.
  pose proof (NewVersion_parsed s2 v2 E2) as P2.
  rewrite (within_table_entry _ v1 P1) in W1.
  rewrite (within_table_entry _ v2 P2) in W2.
  rewrite (in_range_entry (init growcap) 5 _ _ v1 eq_refl P1).
  rewrite (in_range_entry (init growcap) 5 _ _ v2 eq_refl P2).
  rewrite (SupportedPlatforms_parsed _ s1 v1 E1) in R1.
  rewrite (SupportedPlatforms_parsed _ s2 v2 E2) in R2.
  destruct (entry_of v1) as [i|] eqn:Ei; [|discriminate].
  destruct (entry_of v2) as [j|] eqn:Ej; [|discriminate].
  cbn [outcome] in R1, R2. injection R1 as <-. injection R2 as <-.
  pose proof (entry_of_mono v1 v2 i j P1 P2 Ei Ej Hlt) as Hij.
  pose proof (entry_of_bound v2 j Ej) as Hj.
  destruct (Nat.eq_dec i 5) as [->|Hi5].
  - (* [v1] is in the 1.6 range *)
    split.
    + intros Hexc. specialize (Hexc eq_refl). apply Nat.eqb_eq in Hexc.
      subst j. apply incl_refl.
    + intros Hcap. destruct (Nat.eq_dec j 5) as [->|Hj5]; [apply incl_refl|].
      rewrite (snapshot_contents _ j Hinit) by lia.
      change (snapshot_at (init growcap) 5) with (Platforms_1_6 (init growcap)).
      rewrite (proj1 (init_1_6 growcap) Hcap).
      apply overwritten_1_6_incl; lia.
  - assert (Hincl : incl (contents (init growcap) (snapshot_at (init growcap) i))
                         (contents (init growcap) (snapshot_at (init growcap) j))).
    { destruct (Nat.eq_dec j 5) as [->|Hj5].
      - rewrite (snapshot_contents _ i Hinit) by lia.
        eapply incl_tran; [|apply snapshot_1_6_extends, Hinit].
        apply (defs_incl i 4); lia.
      - rewrite (snapshot_contents _ i Hinit), (snapshot_contents _ j Hinit)
          by lia.
        now apply defs_incl. }
    split; intros _; exact Hincl.
Qed.

Lemma later_versions_keep_platforms_witness :
  incl (contents gc (Platforms_1_4 gc)) (contents gc (Platforms_1_9 gc))
  /\ incl (contents gc (Platforms_1_6 gc)) (contents gc (Platforms_1_7 gc)).
Proof.
  split.
  - refine (proj1 (later_versions_keep_platforms gc_growcap "1.4.2" "1.9"
                     _ _ (Platforms_1_4 gc) (Platforms_1_9 gc)
                     eq_refl eq_refl eq_refl eq_refl eq_refl
                     eq_refl eq_refl) _).
    intros H. discriminate H.
  - refine (proj2 (later_versions_keep_platforms gc_growcap "1.6.4" "1.7"
                     _ _ (Platforms_1_6 gc) (Platforms_1_7 gc)
                     eq_refl eq_refl eq_refl eq_refl eq_refl
                     eq_refl eq_refl) _).
    vm_compute. repeat constructor.
Defined.

(** C5. On every input string [SupportedPlatforms] returns a platform
    list and never fails (it does not reach the panic of line 212): an
    input that does not begin with ["go"] returns the latest snapshot, and
    so does a ["go"] input whose remainder does not parse as a version;
    hence ["not-a-version"] and ["go99.99.99"] resolve to the same list. *)
Theorem SupportedPlatforms_never_fails (growcap : nat -> nat -> nat)
        (v : string) :
  (exists plat, outcome (SupportedPlatforms (init growcap) v) = Returns plat)
  /\ (Go.strings_HasPrefix v "go" = false ->
      outcome (SupportedPlatforms (init growcap) v)
      = Returns (PlatformsLatest (init growcap)))
  /\ (forall r e, v = ("go" ++ r)%string ->
                  version.NewVersion r = Go.Err e ->
                  outcome (SupportedPlatforms (init growcap) v)
                  = Returns (PlatformsLatest (init growcap)))
  /\ SupportedPlatforms (init growcap) "not-a-version"
     = SupportedPlatforms (init growcap) "go99.99.99"
  /\ contents (init growcap) (PlatformsLatest (init growcap)) = def_1_12.
Proof.
  destruct (init_initialised growcap)
    as (_ & _ & _ & _ & _ & _ & _ & _ & _ & _ & H112 & _ & Hlatest).
  split; [apply SupportedPlatforms_returns|].
  split; [|split; [|split]].
  - intros Hp. unfold SupportedPlatforms. now rewrite Hp.
  - intros r e -> E. now rewrite SupportedPlatforms_go, E.
  - rewrite (SupportedPlatforms_parsed _ "99.99.99" _ eq_refl).
    cbn. now rewrite Hlatest.
  - now rewrite Hlatest.
Qed.

Lemma SupportedPlatforms_never_fails_witness :
  outcome (SupportedPlatforms gc "not-a-version") = Returns (PlatformsLatest gc)
  /\ outcome (SupportedPlatforms gc "go1..2") = Returns (PlatformsLatest gc).
Proof.
  destruct (SupportedPlatforms_never_fails gc_growcap "not-a-version")
    as (_ & Hprefix & _).
  destruct (SupportedPlatforms_never_fails gc_growcap "go1..2")
    as (_ & _ & Hparse & _).
  split.
  - exact (Hprefix eq_refl).
  - exact (Hparse "1..2" (version.MalformedVersion "1..2") eq_refl eq_refl).
Defined.

(** C6. [SupportedPlatforms("go1.9.2")] returns the 1.9 snapshot: a list
    that contains [{"js","wasm",true}] and [{"linux","riscv64",true}] and
    does not contain [{"aix","ppc64",true}]; for every growth policy. *)
Theorem go1_9_2_is_the_1_9_snapshot (growcap : nat -> nat -> nat) :
  outcome (SupportedPlatforms (init growcap) "go1.9.2")
  = Returns (Platforms_1_9 (init growcap))
  /\ In (mkPlatform "js" "wasm" true)
        (contents (init growcap) (Platforms_1_9 (init growcap)))
  /\ In (mkPlatform "linux" "riscv64" true)
        (contents (init growcap) (Platforms_1_9 (init growcap)))
  /\ ~ In (mkPlatform "aix" "ppc64" true)
          (contents (init growcap) (Platforms_1_9 (init growcap))).
Proof.
  destruct (init_initialised growcap) as (_ & _ & _ & _ & _ & _ & _ & _ & H19 & _).
  rewrite H19. split; [|split; [|split]].
  - generalize (init growcap). intros g. vm_compute. reflexivity.
  - apply has_In. vm_compute. reflexivity.
  - apply has_In. vm_compute. reflexivity.
  - apply has_not_In. vm_compute. reflexivity.
Qed.

(** C7. [SupportedPlatforms("go0.9")] returns the 1.0 snapshot, a list of
    exactly 11 entries each of which has [Default = true]; this holds for
    every growth policy of [append]. *)
Theorem go0_9_is_the_1_0_snapshot (growcap : nat -> nat -> nat) :
  outcome (SupportedPlatforms (init growcap) "go0.9")
  = Returns (Platforms_1_0 (init growcap))
  /\ contents (init growcap) (Platforms_1_0 (init growcap)) = lit_1_0
  /\ List.length (contents (init growcap) (Platforms_1_0 (init growcap))) = 11
  /\ Forall (fun p => Default p = true)
            (contents (init growcap) (Platforms_1_0 (init growcap))).
Proof.
  destruct (init_initialised growcap) as (H10 & _).
  rewrite H10. split; [|split; [|split]].
  - generalize (init growcap). intros g. vm_compute. reflexivity.
  - reflexivity.
  - reflexivity.
  - repeat constructor.
Qed.

(** C8. [OSUname] maps ["solaris"] to ["SunOS"] and ["android"] to the
    empty string, [ArchUname] maps ["arm64"] to ["aarch64"] and ["mips"] to
    the empty string; for every OS or Arch that is not a key of the lookup
    tables the result is the empty string (the methods are total: nothing
    is raised). *)
Theorem Uname_lookup (p : Platform) :
  (OS p = "solaris" -> Platform_OSUname p = "SunOS")
  /\ (OS p = "android" -> Platform_OSUname p = "")
  /\ (Arch p = "arm64" -> Platform_ArchUname p = "aarch64")
  /\ (Arch p = "mips" -> Platform_ArchUname p = "")
  /\ (~ In (OS p) (map fst OSUname_table) -> Platform_OSUname p = "")
  /\ (~ In (Arch p) (map fst ArchUname_table) -> Platform_ArchUname p = "").
Proof.
  unfold Platform_OSUname, Platform_ArchUname.
  repeat split; try (intros ->; reflexivity); apply map_index_missing.
Qed.

Lemma Uname_lookup_witness :
  Platform_OSUname (mkPlatform "solaris" "amd64" false) = "SunOS"
  /\ Platform_OSUname (mkPlatform "android" "mips" false) = ""
  /\ Platform_ArchUname (mkPlatform "linux" "arm64" true) = "aarch64"
  /\ Platform_ArchUname (mkPlatform "android" "mips" false) = ""
  /\ Platform_OSUname (mkPlatform "zos" "s390x" false) = ""
  /\ Platform_ArchUname (mkPlatform "zos" "s390x" false) = "".
Proof.
  destruct (Uname_lookup (mkPlatform "solaris" "amd64" false))
    as (Hsolaris & _).
  destruct (Uname_lookup (mkPlatform "android" "mips" false))
    as (_ & Handroid & _ & Hmips & _).
  destruct (Uname_lookup (mkPlatform "linux" "arm64" true))
    as (_ & _ & Harm64 & _).
  destruct (Uname_lookup (mkPlatform "zos" "s390x" false))
    as (_ & _ & _ & _ & Hos & Harch).
  split; [exact (Hsolaris eq_refl)|].
  split; [exact (Handroid eq_refl)|].
  split; [exact (Harm64 eq_refl)|].
  split; [exact (Hmips eq_refl)|].
  split; [apply Hos|apply Harch]; cbn; intros H;
    repeat (destruct H as [H|H]; [discriminate H|]); exact H.
Defined.

(** C9. For every Platform value [p], [String(p)] is the concatenation of
    [p.OS], a slash and [p.Arch]; in particular the platform
    [{"linux","amd64",true}] renders as ["linux/amd64"]. *)
Theorem String_renders_OS_slash_Arch :
  (forall p : Platform,
      Platform_String p = (OS p ++ "/" ++ Arch p)%string)
  /\ Platform_String (mkPlatform "linux" "amd64" true) = "linux/amd64".
Proof. split; reflexivity. Qed.

(** C10. For every version [v] in the range [[1.10, 1.11)] and every
    version [w] in the range [[1.9, 1.10)], [SupportedPlatforms] returns
    for ["go" + v] exactly what it returns for ["go" + w]: the 1.10
    snapshot is the 1.9 snapshot (the same slice), with no additions. *)
Theorem go1_10_resolves_as_go1_9 (growcap : nat -> nat -> nat)
        (s t : string) (v w : version.Version) :
  version.NewVersion s = Go.Ok v ->
  version.NewVersion t = Go.Ok w ->
  in_range ">=1.10, < 1.11" v = true ->
  in_range ">= 1.9, < 1.10" w = true ->
  outcome (SupportedPlatforms (init growcap) ("go" ++ s))
  = outcome (SupportedPlatforms (init growcap) ("go" ++ t))
  /\ outcome (SupportedPlatforms (init growcap) ("go" ++ s))
     = Returns (Platforms_1_10 (init growcap))
  /\ outcome (SupportedPlatforms (init growcap) ("go" ++ t))
     = Returns (Platforms_1_9 (init growcap))
  /\ Platforms_1_10 (init growcap) = Platforms_1_9 (init growcap)
  /\ contents (init growcap) (Platforms_1_10 (init growcap)) = def_1_9.
Proof.
  intros Es Et Hv Hw.
  destruct (init_initialised growcap)
    as (_ & _ & _ & _ & _ & _ & _ & _ & H19 & _ & _ & H110 & _).
  pose proof (NewVersion_parsed s v Es) as Pv.
  pose proof (NewVersion_parsed t w Et) as Pw.
  rewrite (in_range_entry (init growcap) 9 _ _ v eq_refl Pv) in Hv.
  rewrite (in_range_entry (init growcap) 8 _ _ w eq_refl Pw) in Hw.
  destruct (entry_of v) as [i|] eqn:Ev; [|discriminate].
  destruct (entry_of w) as [j|] eqn:Ew; [|discriminate].
  apply Nat.eqb_eq in Hv, Hw. subst i j.
  rewrite (SupportedPlatforms_parsed _ s v Es), Ev.
  rewrite (SupportedPlatforms_parsed _ t w Et), Ew.
  cbn [outcome]. unfold snapshot_at, platforms. cbn [map snd nth].
  rewrite H110. repeat split. exact H19.
Qed.

Lemma go1_10_resolves_as_go1_9_witness :
  outcome (SupportedPlatforms gc "go1.10.3")
  = outcome (SupportedPlatforms gc "go1.9.2").
Proof.
  destruct (go1_10_resolves_as_go1_9 gc_growcap "1.10.3" "1.9.2" _ _
              eq_refl eq_refl eq_refl eq_refl) as (H & _).
  exact H.
Defined.

(* ================================================================== *)
(** * Further properties of the resolver                                *)
(* ================================================================== *)

Section MoreRangeFacts.
Import Go version.

(** [>] against the bound 1.k, for a parsed version. *)
Lemma gt_bound v k n text a b d t :
  segments v = a :: b :: d :: t ->
  (0 <= d)%Z -> (0 <= k)%Z ->
  constraintGreaterThan v (mkVersion "" "" [1; k; 0]%Z n text)
  = String.eqb (pre v) ""
    && ((1 <? a)%Z
        || ((a =? 1)%Z
            && ((k <? b)%Z
                || ((b =? k)%Z && negb ((d =? 0)%Z && allZero t))))).
Proof.
  intros Hs Hd Hk. unfold constraintGreaterThan.
  rewrite prereleaseCheck_release by now apply release_bound.
  destruct (String.eqb_spec (pre v) "") as [Hp|_]; [|reflexivity].
  rewrite (Compare_bound v k n text a b d t) by trivial.
  cbn [andb].
  destruct (Z.ltb_spec a 1); settle; [reflexivity|].
  destruct (Z.ltb_spec 1 a); settle; [reflexivity|].
  destruct (Z.ltb_spec b k); settle; [reflexivity|].
  destruct (Z.ltb_spec k b); settle; [reflexivity|].
  now destruct ((d =? 0)%Z && allZero t).
Qed.

(** For a release, [entry_of] names no entry exactly strictly between 1.0
    and 1.1 and from 1.13 on. *)
Lemma entry_of_None_release v :
  parsed v -> pre v = EmptyString ->
  match entry_of v with Some _ => false | None => true end
  = in_range "> 1.0, < 1.1" v || in_range ">= 1.13" v.
Proof.
  intros Hv Hp.
  destruct (parsed_shape v Hv) as (a & b & d & t & Hs & Ha & Hb & Hd & Ht).
  unfold in_range. read_constraints.
  cbn [Constraints_Check Constraint_Check constraintFunc f check].
  rewrite (ge_bound v _ _ _ a b d t Hs Hd) by lia.
  rewrite (lt_bound v _ _ _ a b d t Hs Hd) by lia.
  rewrite (gt_bound v _ _ _ a b d t Hs Hd) by lia.
  unfold entry_of. rewrite Hs, Hp. cbn [String.eqb negb andb].
  destruct (Z.lt_total a 1) as [Ha1|[->|Ha1]];
    [settle; reflexivity| |settle; reflexivity].
  assert (Hcases : (b = 0 \/ 1 <= b < 3 \/ b = 3 \/ b = 4 \/ b = 5
                    \/ b = 6 \/ b = 7 \/ b = 8 \/ b = 9 \/ b = 10
                    \/ b = 11 \/ b = 12 \/ 13 <= b)%Z) by lia.
  unfold allZero. cbn [forallb].
  repeat (destruct Hcases as [Hb'|Hcases]);
    try (settle; reflexivity).
  subst b.
  destruct (Z.eqb_spec d 0) as [->|Hd0]; settle;
    [destruct (forallb (Z.eqb 0) t)|]; reflexivity.
Qed.
End MoreRangeFacts.

(** X1. Whatever capacities [append] picks, after initialisation every
    snapshot variable other than [Platforms_1_6] denotes exactly what its
    initialiser reads as (the operand followed by the appended values), and
    [Platforms_1_6] still has its 32 entries, the first 29 of them those of
    [Platforms_1_5]: the later appends never reach below the length of an
    earlier snapshot. *)
Theorem snapshots_denote_their_initialisers (growcap : nat -> nat -> nat) :
  map (contents (init growcap))
      [ Platforms_1_0 (init growcap); Platforms_1_1 (init growcap);
        Platforms_1_3 (init growcap); Platforms_1_4 (init growcap);
        Platforms_1_5 (init growcap); Platforms_1_7 (init growcap);
        Platforms_1_8 (init growcap); Platforms_1_9 (init growcap);
        Platforms_1_10 (init growcap); Platforms_1_11 (init growcap);
        Platforms_1_12 (init growcap); PlatformsLatest (init growcap) ]
  = [ def_1_0; def_1_1; def_1_3; def_1_4; def_1_5; def_1_7; def_1_8;
      def_1_9; def_1_10; def_1_11; def_1_12; def_1_12 ]
  /\ List.length (contents (init growcap) (Platforms_1_6 (init growcap))) = 32
  /\ firstn 29 (contents (init growcap) (Platforms_1_6 (init growcap)))
     = contents (init growcap) (Platforms_1_5 (init growcap)).
Proof.
  destruct (init_initialised growcap)
    as (H0 & H1 & H3 & H4 & H5 & (L6 & H6) & H7 & H8 & H9 & H11 & H12
        & H10 & Hl).
  cbn [map]. rewrite Hl, H10, H0, H1, H3, H4, H5, H7, H8, H9, H11, H12.
  repeat split; assumption.
Qed.

(** X2. Every entry of the range table resolves to its own snapshot: a
    parsed version that satisfies the constraint of an entry is returned
    that entry's slice, and it satisfies the constraint of no other entry
    (the ranges do not overlap, so the order of the table never decides). *)
Theorem every_entry_resolves_to_its_snapshot (g : Globals) (i : nat)
        (c : string) (p : Go.Slice) (s : string) (v : version.Version) :
  nth_error (platforms g) i = Some (c, p) ->
  version.NewVersion s = Go.Ok v ->
  in_range c v = true ->
  outcome (SupportedPlatforms g ("go" ++ s)) = Returns p
  /\ forall j c' p', nth_error (platforms g) j = Some (c', p') ->
                     in_range c' v = true -> j = i.
Proof.
  intros Hi Es Hin. pose proof (NewVersion_parsed s v Es) as Pv.
  rewrite (in_range_entry g i c p v Hi Pv) in Hin.
  destruct (entry_of v) as [k|] eqn:Ek; [|discriminate].
  apply Nat.eqb_eq in Hin. subst k.
  destruct (range_loop_matched g v i Pv Ek) as (c0 & p0 & Hn & _ & _ & Hp0).
  rewrite Hi in Hn. injection Hn as <- <-.
  split.
  - rewrite (SupportedPlatforms_parsed g s v Es), Ek. now rewrite <- Hp0.
  - intros j c' p' Hj Hin'.
    rewrite (in_range_entry g j c' p' v Hj Pv), Ek in Hin'.
    now apply Nat.eqb_eq in Hin'.
Qed.

Lemma every_entry_resolves_to_its_snapshot_witness :
  outcome (SupportedPlatforms gc "go1.4.3") = Returns (Platforms_1_4 gc).
Proof.
  exact (proj1 (every_entry_resolves_to_its_snapshot gc 3 ">= 1.4, < 1.5"
                  (Platforms_1_4 gc) "1.4.3" _ eq_refl eq_refl eq_refl)).
Defined.

(** X3. The patch level does not matter outside 1.0: two versions with
    the same first two segments and the same pre-release text, other than
    1.0.x, resolve to the same slice, whatever follows the second segment
    and whatever their metadata. *)
Theorem patch_level_does_not_matter (g : Globals) (s t : string)
        (v w : version.Version) (a b : Z) (rv rw : list Z) :
  version.NewVersion s = Go.Ok v ->
  version.NewVersion t = Go.Ok w ->
  version.segments v = a :: b :: rv ->
  version.segments w = a :: b :: rw ->
  version.pre v = version.pre w ->
  (a = 1 -> b <> 0)%Z ->
  SupportedPlatforms g ("go" ++ s) = SupportedPlatforms g ("go" ++ t).
Proof.
  intros Es Et Hv Hw Hpre Hab.
  rewrite (SupportedPlatforms_parsed g s v Es).
  rewrite (SupportedPlatforms_parsed g t w Et).
  assert (E : entry_of v = entry_of w); [|now rewrite E].
  unfold entry_of. rewrite Hv, Hw, Hpre.
  destruct (negb (String.eqb (version.pre w) "")); [reflexivity|].
  destruct (Z.ltb_spec a 1); [reflexivity|].
  destruct (Z.ltb_spec 1 a); [reflexivity|].
  assert (a = 1)%Z as Ha by lia.
  now rewrite (proj2 (Z.eqb_neq b 0) (Hab Ha)).
Qed.

Lemma patch_level_does_not_matter_witness :
  SupportedPlatforms gc "go1.9" = SupportedPlatforms gc "go1.9.7+build5".
Proof.
  refine (patch_level_does_not_matter gc "1.9" "1.9.7+build5" _ _ 1 9 _ _
            eq_refl eq_refl eq_refl eq_refl eq_refl _).
  intros _ H. discriminate H.
Defined.

(** X4. For a release (a parsed version without pre-release), the loop runs
    past the table exactly when the version lies strictly between 1.0 and
    1.1 or at or above 1.13; the call then returns [Platforms_1_12]. *)
Theorem releases_that_fall_through (g : Globals) (s : string)
        (v : version.Version) :
  version.NewVersion s = Go.Ok v ->
  version.pre v = EmptyString ->
  (range_loop v (platforms g) = Exhausted <->
   in_range "> 1.0, < 1.1" v = true \/ in_range ">= 1.13" v = true)
  /\ (range_loop v (platforms g) = Exhausted ->
      outcome (SupportedPlatforms g ("go" ++ s))
      = Returns (Platforms_1_12 g)).
Proof.
  intros Es Hp. pose proof (NewVersion_parsed s v Es) as Pv.
  pose proof (entry_of_None_release v Pv Hp) as H.
  rewrite (SupportedPlatforms_parsed g s v Es).
  rewrite (range_loop_entry g v Pv).
  destruct (entry_of v) as [i|]; symmetry in H.
  - apply orb_false_iff in H as [H1 H2]. rewrite H1, H2.
    split; [split|]; try discriminate. intros [?|?]; discriminate.
  - apply orb_true_iff in H. split; [split; auto|reflexivity].
Qed.

Lemma releases_that_fall_through_witness :
  range_loop (version.mkVersion "" "" [1; 0; 2]%Z 3 "1.0.2") (platforms gc)
  = Exhausted
  /\ outcome (SupportedPlatforms gc "go1.0.2") = Returns (Platforms_1_12 gc).
Proof.
  destruct (releases_that_fall_through gc "1.0.2" _ eq_refl eq_refl)
    as [[_ Hiff] Hout].
  assert (H : range_loop (version.mkVersion "" "" [1; 0; 2]%Z 3 "1.0.2")
                         (platforms gc) = Exhausted)
    by (apply Hiff; left; reflexivity).
  split; [exact H|exact (Hout H)].
Defined.

(** X5. Every release at or above 1.12 resolves to the latest snapshot,
    through the last entry of the table (1.12.x) or through the fallback
    (1.13 and later, 2.0, ...). *)
Theorem releases_from_1_12_get_the_latest (growcap : nat -> nat -> nat)
        (s : string) (v : version.Version) :
  version.NewVersion s = Go.Ok v ->
  in_range ">= 1.12" v = true ->
  outcome (SupportedPlatforms (init growcap) ("go" ++ s))
  = Returns (PlatformsLatest (init growcap))
  /\ contents (init growcap) (PlatformsLatest (init growcap)) = def_1_12.
Proof.
  intros Es Hin. pose proof (NewVersion_parsed s v Es) as Pv.
  destruct (init_initialised growcap)
    as (_ & _ & _ & _ & _ & _ & _ & _ & _ & _ & H12 & _ & Hl).
  rewrite Hl. split; [|exact H12].
  rewrite (SupportedPlatforms_parsed _ s v Es). f_equal.
  destruct (parsed_shape v Pv) as (a & b & d & t & Hs & Ha & Hb & Hd & Ht).
  revert Hin. unfold in_range. read_constraints.
  cbn [version.Constraints_Check version.Constraint_Check
       version.constraintFunc version.f version.check].
  rewrite (ge_bound v _ _ _ a b d t Hs Hd) by lia.
  unfold entry_of. rewrite Hs.
  destruct (String.eqb (version.pre v) ""); cbn [negb andb];
    [|discriminate].
  destruct (Z.lt_total a 1) as [Ha1|[->|Ha1]]; settle;
    try discriminate; try reflexivity.
  destruct (Z.leb_spec 12 b); [|discriminate]. intros _.
  destruct (Z.eq_dec b 12) as [->|]; settle; reflexivity.
Qed.

Lemma releases_from_1_12_get_the_latest_witness :
  outcome (SupportedPlatforms gc "go1.21.4") = Returns (PlatformsLatest gc).
Proof.
  exact (proj1 (releases_from_1_12_get_the_latest gc_growcap "1.21.4" _
                  eq_refl eq_refl)).
Defined.

(** ** What every result holds, and what later versions keep *)

(** The snapshots by table entry once the 1.7 initialiser has written over
    the 1.6 one. *)
Definition defs_over : list (list Platform) :=
  [ def_1_0; def_1_1; def_1_3; def_1_4; def_1_5;
    def_1_5 ++ firstn 3 add_1_7;
    def_1_7; def_1_8; def_1_9; def_1_10; def_1_11; def_1_12 ].

(** Every platform of [l1] has its (OS, Arch) pair in [l2]. *)
Definition targets_within (l1 l2 : list Platform) : bool :=
  forallb (fun p => existsb (same_target p) l2) l1.

(** For a table of snapshots: along the table the lists get no shorter and
    lose no (OS, Arch) pair, and each holds the platforms of 1.0. *)
Definition table_grows (D : list (list Platform)) : bool :=
  forallb (fun i =>
    forallb (has (nth i D [])) def_1_0
    && forallb (fun j =>
         if i <=? j
         then (List.length (nth i D []) <=? List.length (nth j D []))
              && targets_within (nth i D []) (nth j D [])
         else true) (seq 0 12)) (seq 0 12).

Lemma targets_within_spec l1 l2 p :
  targets_within l1 l2 = true -> In p l1 ->
  exists q, In q l2 /\ OS q = OS p /\ Arch q = Arch p.
Proof.
  unfold targets_within. rewrite forallb_forall. intros H Hp.
  specialize (H p Hp). apply existsb_exists in H as (q & Hq & E).
  unfold same_target in E. apply andb_true_iff in E as [E1 E2].
  apply String.eqb_eq in E1, E2. exists q. auto.
Qed.

(** Whatever the growth policy, the twelve snapshots of the table denote
    one of two tables of lists. *)
Lemma snapshot_table (growcap : nat -> nat -> nat) :
  exists D, (D = defs \/ D = defs_over)
            /\ forall i, i < 12 ->
                 contents (init growcap) (snapshot_at (init growcap) i)
                 = nth i D [].
Proof.
  pose proof (init_initialised growcap) as Hinit.
  destruct (init_1_6 growcap) as [Hover Hkept].
  destruct (Nat.le_gt_cases 34 (Go.cap (Platforms_1_5 (init growcap))))
    as [Hc|Hc]; [exists defs_over|exists defs]; (split; [auto|]);
    intros i Hi; (destruct (Nat.eq_dec i 5) as [->|Hi5];
                  [|rewrite (snapshot_contents _ i Hinit Hi Hi5);
                    destruct i as [|[|[|[|[|[|[|[|[|[|[|[|i]]]]]]]]]]]];
                    try reflexivity; lia]).
  - exact (Hover Hc).
  - exact (Hkept Hc).
Qed.

Lemma table_grows_true D :
  D = defs \/ D = defs_over -> table_grows D = true.
Proof. intros [->| ->]; vm_compute; reflexivity. Qed.

Lemma table_grows_spec D i j :
  table_grows D = true -> i <= j -> j < 12 ->
  incl def_1_0 (nth i D [])
  /\ List.length (nth i D []) <= List.length (nth j D [])
  /\ targets_within (nth i D []) (nth j D []) = true.
Proof.
  unfold table_grows. rewrite forallb_forall. intros H Hij Hj.
  specialize (H i ltac:(apply in_seq; lia)).
  apply andb_true_iff in H as [H0 H]. rewrite forallb_forall in H.
  specialize (H j ltac:(apply in_seq; lia)).
  rewrite (proj2 (Nat.leb_le i j) Hij) in H.
  apply andb_true_iff in H as [Hl Ht]. apply Nat.leb_le in Hl.
  split; [now apply forallb_has_incl|]. now split.
Qed.

(** X6. On every input and for every growth policy, the list
    [SupportedPlatforms] returns holds the eleven platforms of the 1.0
    snapshot (darwin, linux, freebsd, openbsd and windows on 386 and amd64,
    and linux/arm, all defaults): no input yields an empty or a shorter
    list. *)
Theorem every_result_holds_the_1_0_platforms (growcap : nat -> nat -> nat)
        (v : string) :
  exists plat,
    outcome (SupportedPlatforms (init growcap) v) = Returns plat
    /\ incl lit_1_0 (contents (init growcap) plat)
    /\ 11 <= List.length (contents (init growcap) plat).
Proof.
  destruct (snapshot_table growcap) as (D & HD & Hc).
  pose proof (table_grows_true D HD) as Hg.
  destruct (init_initialised growcap)
    as (_ & _ & _ & _ & _ & _ & _ & _ & _ & _ & _ & _ & Hl).
  assert (Hsnap : forall i, i < 12 ->
            incl lit_1_0 (contents (init growcap) (snapshot_at (init growcap) i))
            /\ 11 <= List.length
                       (contents (init growcap) (snapshot_at (init growcap) i))).
  { intros i Hi. rewrite (Hc i Hi).
    destruct (table_grows_spec D 0 i Hg) as (_ & Hlen & _); try lia.
    destruct (table_grows_spec D i i Hg) as (Hincl & _); try lia.
    split; [exact Hincl|].
    assert (List.length (nth 0 D []) = 11)
      by (destruct HD as [->| ->]; reflexivity).
    lia. }
  assert (Hlast : incl lit_1_0 (contents (init growcap)
                                         (Platforms_1_12 (init growcap)))
                  /\ 11 <= List.length (contents (init growcap)
                                          (Platforms_1_12 (init growcap))))
    by exact (Hsnap 11 ltac:(lia)).
  destruct (Go.strings_HasPrefix v "go") eqn:Hp.
  - rewrite (HasPrefix_go v Hp).
    destruct (version.NewVersion (Go.string_from 2 v)) as [cur|e] eqn:E.
    + rewrite (SupportedPlatforms_parsed _ _ cur E).
      destruct (entry_of cur) as [i|] eqn:Ei; eexists; (split; [reflexivity|]).
      * apply Hsnap. eapply entry_of_bound, Ei.
      * exact Hlast.
    + rewrite SupportedPlatforms_go, E. eexists. split; [reflexivity|].
      rewrite Hl. exact Hlast.
  - unfold SupportedPlatforms. rewrite Hp. eexists. split; [reflexivity|].
    rewrite Hl. exact Hlast.
Qed.

(** X7. For every growth policy and all versions [v1 < v2] within the
    table, the list returned for [v2] is at least as long as the one
    returned for [v1], and every (OS, Arch) pair of the list for [v1] is a
    pair of the list for [v2]: a later version drops no target.  Unlike
    inclusion of the entries themselves, this needs no exception for 1.6:
    only Default flags differ there. *)
Theorem later_versions_drop_no_target (growcap : nat -> nat -> nat)
        (s1 s2 : string) (v1 v2 : version.Version) (plat1 plat2 : Go.Slice) :
  version.NewVersion s1 = Go.Ok v1 ->
  version.NewVersion s2 = Go.Ok v2 ->
  within_table (init growcap) v1 = true ->
  within_table (init growcap) v2 = true ->
  version.Compare v1 v2 = (-1)%Z ->
  outcome (SupportedPlatforms (init growcap) ("go" ++ s1)) = Returns plat1 ->
  outcome (SupportedPlatforms (init growcap) ("go" ++ s2)) = Returns plat2 ->
  List.length (contents (init growcap) plat1)
  <= List.length (contents (init growcap) plat2)
  /\ forall p, In p (contents (init growcap) plat1) ->
               exists q, In q (contents (init growcap) plat2)
                         /\ OS q = OS p /\ Arch q = Arch p.
Proof.
  intros E1 E2 W1 W2 Hlt R1 R2.
  pose proof (NewVersion_parsed s1 v1 E1) as P1.
  pose proof (NewVersion_parsed s2 v2 E2) as P2.
  rewrite (within_table_entry _ v1 P1) in W1.
  rewrite (within_table_entry _ v2 P2) in W2.
  rewrite (SupportedPlatforms_parsed _ s1 v1 E1) in R1.
  rewrite (SupportedPlatforms_parsed _ s2 v2 E2) in R2.
  destruct (entry_of v1) as [i|] eqn:Ei; [|discriminate].
  destruct (entry_of v2) as [j|] eqn:Ej; [|discriminate].
  cbn [outcome] in R1, R2. injection R1 as <-. injection R2 as <-.
  pose proof (entry_of_mono v1 v2 i j P1 P2 Ei Ej Hlt) as Hij.
  pose proof (entry_of_bound v2 j Ej) as Hj.
  destruct (snapshot_table growcap) as (D & HD & Hc).
  rewrite (Hc i), (Hc j) by lia.
  destruct (table_grows_spec D i j (table_grows_true D HD) Hij Hj)
    as (_ & Hlen & Ht).
  split; [exact Hlen|]. intros p Hp. now apply (targets_within_spec _ _ p Ht).
Qed.

Lemma later_versions_drop_no_target_witness :
  List.length (contents gc (Platforms_1_6 gc))
  <= List.length (contents gc (Platforms_1_8 gc)).
Proof.
  exact (proj1 (later_versions_drop_no_target gc_growcap "1.6.1" "1.8" _ _
                  (Platforms_1_6 gc) (Platforms_1_8 gc)
                  eq_refl eq_refl eq_refl eq_refl eq_refl eq_refl eq_refl)).
Defined.

(** ** The methods of [Platform] *)

(** The string holds no slash. *)
Fixpoint no_slash (s : string) : bool :=
  match s with
  | EmptyString => true
  | String c s' => negb (Ascii.eqb c "/") && no_slash s'
  end.

Lemma split_at_slash (a c b d : string) :
  no_slash a = true -> no_slash c = true ->
  (a ++ "/" ++ b = c ++ "/" ++ d)%string -> a = c /\ b = d.
Proof.
  revert c. induction a as [|x a IH]; intros [|y c] Ha Hc E;
    cbn [String.append no_slash] in *.
  - injection E as E. now split.
  - injection E as E1 E2. subst y. discriminate.
  - injection E as E1 E2. subst x. discriminate.
  - injection E as E1 E2. subst y.
    apply andb_true_iff in Ha as [_ Ha]. apply andb_true_iff in Hc as [_ Hc].
    destruct (IH c Ha Hc E2) as [-> ->]. now split.
Qed.

(** What a call returns is an entry of one of the two tables of lists. *)
Lemma result_in_table (growcap : nat -> nat -> nat) (v : string)
      (plat : Go.Slice) :
  outcome (SupportedPlatforms (init growcap) v) = Returns plat ->
  exists D i, (D = defs \/ D = defs_over) /\ i < 12
              /\ contents (init growcap) plat = nth i D [].
Proof.
  intros R.
  destruct (snapshot_table growcap) as (D & HD & Hc).
  destruct (init_initialised growcap)
    as (_ & _ & _ & _ & _ & _ & _ & _ & _ & _ & _ & _ & Hl).
  exists D.
  assert (Hlast : exists i, i < 12
            /\ contents (init growcap) (Platforms_1_12 (init growcap))
               = nth i D [])
    by (exists 11; split; [lia|exact (Hc 11 ltac:(lia))]).
  destruct (Go.strings_HasPrefix v "go") eqn:Hp.
  - rewrite (HasPrefix_go v Hp) in R.
    destruct (version.NewVersion (Go.string_from 2 v)) as [cur|e] eqn:E.
    + rewrite (SupportedPlatforms_parsed _ _ cur E) in R.
      cbn [outcome] in R. injection R as <-.
      destruct (entry_of cur) as [i|] eqn:Ei.
      * exists i. pose proof (entry_of_bound cur i Ei). auto.
      * destruct Hlast as (i & ? & ?). exists i. auto.
    + rewrite SupportedPlatforms_go, E in R. cbn [outcome] in R.
      injection R as <-. rewrite Hl.
      destruct Hlast as (i & ? & ?). exists i. auto.
  - unfold SupportedPlatforms in R. rewrite Hp in R. cbn [negb outcome] in R.
    injection R as <-. rewrite Hl.
    destruct Hlast as (i & ? & ?). exists i. auto.
Qed.

Lemma tables_hold_no_slash D i p :
  D = defs \/ D = defs_over -> In p (nth i D []) -> no_slash (OS p) = true.
Proof.
  intros HD Hp.
  assert (H : forallb (forallb (fun p => no_slash (OS p))) D = true)
    by (destruct HD as [->| ->]; vm_compute; reflexivity).
  rewrite forallb_forall in H.
  destruct (Nat.lt_ge_cases i (List.length D)) as [Hi|Hi].
  - specialize (H _ (nth_In D [] Hi)). rewrite forallb_forall in H. auto.
  - rewrite (nth_overflow D [] Hi) in Hp. destruct Hp.
Qed.

(** X8. [String] separates targets when the OS names hold no slash: two
    platforms with the same rendering then have the same OS and the same
    Arch.  (Without the condition it does not: OS "a/b" with Arch "c" and
    OS "a" with Arch "b/c" both render as "a/b/c".) *)
Theorem String_separates_targets (p q : Platform) :
  no_slash (OS p) = true -> no_slash (OS q) = true ->
  Platform_String p = Platform_String q ->
  OS p = OS q /\ Arch p = Arch q.
Proof. intros Hp Hq E. exact (split_at_slash _ _ _ _ Hp Hq E). Qed.

Lemma String_separates_targets_witness :
  OS (mkPlatform "linux" "arm64" true) = OS (mkPlatform "linux" "arm64" false)
  /\ Arch (mkPlatform "linux" "arm64" true)
     = Arch (mkPlatform "linux" "arm64" false).
Proof.
  exact (String_separates_targets (mkPlatform "linux" "arm64" true)
           (mkPlatform "linux" "arm64" false) eq_refl eq_refl eq_refl).
Defined.

(** X9. Within any list [SupportedPlatforms] returns, on any input and for
    any growth policy, [String] identifies the target: two platforms of the
    list with the same rendering have the same OS and Arch, and the
    renderings of platforms with different OS or Arch differ. *)
Theorem String_identifies_targets_of_a_result (growcap : nat -> nat -> nat)
        (v : string) (plat : Go.Slice) (p q : Platform) :
  outcome (SupportedPlatforms (init growcap) v) = Returns plat ->
  In p (contents (init growcap) plat) ->
  In q (contents (init growcap) plat) ->
  (Platform_String p = Platform_String q <-> OS p = OS q /\ Arch p = Arch q).
Proof.
  intros R Hp Hq.
  destruct (result_in_table growcap v plat R) as (D & i & HD & _ & Hc).
  rewrite Hc in Hp, Hq. split.
  - apply split_at_slash; eapply tables_hold_no_slash; eauto.
  - unfold Platform_String. now intros [-> ->].
Qed.

Lemma String_identifies_targets_of_a_result_witness :
  Platform_String (mkPlatform "linux" "arm64" true)
  = Platform_String (mkPlatform "linux" "arm64" false)
  <-> OS (mkPlatform "linux" "arm64" true) = OS (mkPlatform "linux" "arm64" false)
      /\ Arch (mkPlatform "linux" "arm64" true)
         = Arch (mkPlatform "linux" "arm64" false).
Proof.
  apply (String_identifies_targets_of_a_result gc_growcap "go1.8"
           (Platforms_1_8 gc)); [reflexivity| |]; vm_compute; tauto.
Defined.

Lemma map_index_In (m : Go.map_literal) (k : string) :
  Go.map_index m k <> EmptyString -> In (k, Go.map_index m k) m.
Proof.
  induction m as [|[k' v] m IH]; cbn [Go.map_index In]; [congruence|].
  destruct (String.eqb_spec k' k) as [->|]; auto.
Qed.

Lemma In_distinct_values (m : Go.map_literal) (k k' v : string) :
  NoDup (map snd m) -> In (k, v) m -> In (k', v) m -> k = k'.
Proof.
  induction m as [|[k0 v0] m IH]; cbn [map snd In]; [tauto|].
  intros N [E|H] [E'|H']; inversion N as [|? ? Hn N']; subst.
  - congruence.
  - injection E as -> ->. exfalso. apply Hn.
    change v with (snd (k', v)). now apply in_map.
  - injection E' as -> ->. exfalso. apply Hn.
    change v with (snd (k, v)). now apply in_map.
  - auto.
Qed.

Lemma map_index_key (m : Go.map_literal) (k : string) :
  forallb (fun kv => negb (String.eqb (snd kv) "")) m = true ->
  In k (map fst m) -> Go.map_index m k <> EmptyString.
Proof.
  induction m as [|[k' v] m IH]; cbn [forallb map fst snd In Go.map_index];
    [tauto|].
  intros H Hk. apply andb_true_iff in H as [Hv H].
  destruct (String.eqb_spec k' k) as [->|Hne].
  - intros ->. discriminate.
  - destruct Hk as [?|Hk]; [contradiction|]. auto.
Qed.

Lemma OSUname_values_distinct : NoDup (map snd OSUname_table).
Proof.
  cbn. repeat (constructor; [cbn; intuition congruence|]). constructor.
Qed.

Lemma ArchUname_values_distinct : NoDup (map snd ArchUname_table).
Proof.
  cbn. repeat (constructor; [cbn; intuition congruence|]). constructor.
Qed.

(** X10. [OSUname] and [ArchUname] give the empty string exactly for the
    names that are no key of their literal: every key maps to a non-empty
    name, so an empty result means "unknown" and nothing else. *)
Theorem Uname_is_empty_exactly_off_the_keys (p : Platform) :
  (Platform_OSUname p = EmptyString <-> ~ In (OS p) (map fst OSUname_table))
  /\ (Platform_ArchUname p = EmptyString
      <-> ~ In (Arch p) (map fst ArchUname_table)).
Proof.
  unfold Platform_OSUname, Platform_ArchUname.
  split; (split; [|apply map_index_missing]); intros E Hk;
    revert E; apply map_index_key; auto.
Qed.

(** X11. The uname names are distinct: two platforms with the same
    non-empty [OSUname] have the same OS, and two with the same non-empty
    [ArchUname] have the same Arch. *)
Theorem Uname_determines_the_name (p q : Platform) :
  (Platform_OSUname p <> EmptyString ->
   Platform_OSUname p = Platform_OSUname q -> OS p = OS q)
  /\ (Platform_ArchUname p <> EmptyString ->
      Platform_ArchUname p = Platform_ArchUname q -> Arch p = Arch q).
Proof.
  unfold Platform_OSUname, Platform_ArchUname. split; intros Hne E.
  - apply (In_distinct_values OSUname_table _ _ _ OSUname_values_distinct
             (map_index_In _ _ Hne)).
    rewrite E. apply map_index_In. now rewrite <- E.
  - apply (In_distinct_values ArchUname_table _ _ _ ArchUname_values_distinct
             (map_index_In _ _ Hne)).
    rewrite E. apply map_index_In. now rewrite <- E.
Qed.

Lemma Uname_determines_the_name_witness :
  OS (mkPlatform "solaris" "amd64" false) = OS (mkPlatform "solaris" "386" false)
  /\ Arch (mkPlatform "linux" "arm64" true)
     = Arch (mkPlatform "darwin" "arm64" false).
Proof.
  split.
  - apply (proj1 (Uname_determines_the_name
                    (mkPlatform "solaris" "amd64" false)
                    (mkPlatform "solaris" "386" false)));
      [discriminate|reflexivity].
  - apply (proj2 (Uname_determines_the_name
                    (mkPlatform "linux" "arm64" true)
                    (mkPlatform "darwin" "arm64" false)));
      [discriminate|reflexivity].
Defined.
